(** * Elementary: the WASM audio processor and its convolution node

    A shallow embedding of [wasm/Main.cpp] (class [ElementaryAudioProcessor])
    and of the convolution node header ([elem::ConvolutionNode]), with the
    properties of the engine specification that concern them.

    Conventions.
    - C++ integers are [Z] with the wrap-around of the wasm32 target written
      out ([int] and [unsigned] are 32 bits, [size_t] is 32 bits, [int64_t]
      is 64 bits).
    - [double] and [float] values are [spec_float]s (binary64 and binary32);
      the narrowing cast rounds to nearest even.
    - A call that throws is an [outcome] [Throws e]; the state reached when
      the exception leaves the function is kept next to it, because a C++
      exception does not roll back the members already written.
    - [Undefined] is undefined behaviour (a null [unique_ptr] dereferenced,
      a channel pointer read past the channel array): no handler catches it. *)

From Stdlib Require Import ZArith Lia SpecFloat.
From stdpp Require Import base option list gmap strings sorting.
From Equations Require Import Equations.
From Equations.Prop Require Import Logic.

Set Warnings "-register-all".
#[local] Open Scope Z_scope.

(* ===================================================================== *)
(** * Machine arithmetic *)
(* ===================================================================== *)

Module Cpp.

Definition wrap_unsigned (bits z : Z) : Z := z mod 2 ^ bits.

Definition wrap_signed (bits z : Z) : Z :=
  (z + 2 ^ (bits - 1)) mod 2 ^ bits - 2 ^ (bits - 1).

(** [static_cast<int>], [static_cast<unsigned>], [static_cast<size_t>],
    [static_cast<int64_t>] *)
Definition to_int : Z → Z := wrap_signed 32.
Definition to_unsigned : Z → Z := wrap_unsigned 32.
Definition to_size_t : Z → Z := wrap_unsigned 32.
Definition to_int64 : Z → Z := wrap_signed 64.

(** [static_cast<float>(double)]: zeros, infinities and NaN keep their
    class, a finite value is rounded to 24 bits of mantissa. *)
Definition to_float (d : spec_float) : spec_float :=
  match d with
  | S754_finite s m e => binary_round 24 128 s m e
  | _ => d
  end.

(** The widening of a [float] to a [double], as when a [float] becomes a
    number of the host: zeros, infinities and NaN keep their class, a
    finite value is brought to 53 bits of mantissa. *)
Definition to_double (x : spec_float) : spec_float :=
  match x with
  | S754_finite s m e => binary_round 53 1024 s m e
  | _ => x
  end.

(** [FloatType(0)] *)
Definition float_zero : spec_float := S754_zero false.

(** [std::fill_n(first, n, value)]: the first [n] cells from [first] on
    are overwritten, the cells behind them are left alone. *)
Definition fill_n {A} (first : list A) (n : nat) (value : A) : list A :=
  replicate n value ++ drop n first.

End Cpp.

(* ===================================================================== *)
(** * Exceptions, outcomes and the state monad of a member function *)
(* ===================================================================== *)

Inductive exception : Type :=
| InvariantViolation (what : string)  (* elem::InvariantViolation *)
| bad_variant_access                  (* mpark::bad_variant_access *)
| std_exception (what : string)       (* any other std::exception *)
| foreign_exception.                  (* anything else that can be thrown *)

(** [catch (std::exception const&)] *)
Definition is_std_exception (e : exception) : bool :=
  match e with
  | foreign_exception => false
  | _ => true
  end.

Inductive outcome (A : Type) : Type :=
| Returns (a : A)
| Throws (e : exception)
| Undefined.
Arguments Returns {A} a.
Arguments Throws {A} e.
Arguments Undefined {A}.

#[export] Instance outcome_ret : MRet outcome := λ A a, Returns a.
#[export] Instance outcome_bind : MBind outcome := λ A B f m,
  match m with
  | Returns a => f a
  | Throws e => Throws e
  | Undefined => Undefined
  end.

(** A member function of an object of type [S]: it runs on the object's
    state and leaves a state behind, also when it throws. *)
Definition M (S A : Type) : Type := S → outcome A * S.

#[export] Instance M_ret {S} : MRet (M S) := λ A a s, (Returns a, s).
#[export] Instance M_bind {S} : MBind (M S) := λ A B f m s,
  match m s with
  | (Returns a, s') => f a s'
  | (Throws e, s') => (Throws e, s')
  | (Undefined, s') => (Undefined, s')
  end.

Definition get {S} : M S S := λ s, (Returns s, s).
Definition gets {S A} (f : S → A) : M S A := λ s, (Returns (f s), s).
Definition modify {S} (f : S → S) : M S unit := λ s, (Returns tt, f s).
Definition throw {S A} (e : exception) : M S A := λ s, (Throws e, s).
Definition undefined_behaviour {S A} : M S A := λ s, (Undefined, s).
Definition lift {S A} (o : outcome A) : M S A := λ s, (o, s).

(** [try { body } catch ... { handler }]: the handler sees the exception and
    the state the body left; what it does not handle it throws again. *)
Definition try_catch {S A} (body : M S A) (handler : exception → M S A) : M S A :=
  λ s, match body s with
       | (Throws e, s') => handler e s'
       | r => r
       end.

(** Modelled from the spec: [invariant(condition, message)] of Invariant.h,
    which is not among the sources. The spec has a failed validation raised
    synchronously; the handlers of Main.cpp catch [elem::InvariantViolation]
    and read its message with [what()]. *)
Definition invariant {S} (condition : bool) (message : string) : M S unit :=
  if condition then mret tt else throw (InvariantViolation message).

(** The spec's names of the two validation failures of a "path" property. *)
Definition InvalidProperty : exception :=
  InvariantViolation "path prop must be a string".
Definition ResourceNotFound : exception :=
  InvariantViolation "failed to find a resource at the given path".

(* ===================================================================== *)
(** * Dynamic values ([elem::js::Value]) *)
(* ===================================================================== *)

Module js.

Inductive Value : Type :=
| Undefined
| Null
| Boolean (b : bool)
| Number (d : spec_float)
| String (s : string)
| Array (xs : list Value)
| Object (o : gmap string Value)
| Float32Array (xs : list spec_float).

Definition isString (v : Value) : bool :=
  match v with String _ => true | _ => false end.
Definition isArray (v : Value) : bool :=
  match v with Array _ => true | _ => false end.
Definition isFloat32Array (v : Value) : bool :=
  match v with Float32Array _ => true | _ => false end.

(** The narrowing conversions [(js::String) v], [(js::Number) v],
    [v.getArray()], [v.getFloat32Array()]: the variant throws when another
    alternative is active. *)
Definition to_String (v : Value) : outcome string :=
  match v with String s => Returns s | _ => Throws bad_variant_access end.
Definition to_Number (v : Value) : outcome spec_float :=
  match v with Number d => Returns d | _ => Throws bad_variant_access end.
Definition getArray (v : Value) : outcome (list Value) :=
  match v with Array xs => Returns xs | _ => Throws bad_variant_access end.
Definition getFloat32Array (v : Value) : outcome (list spec_float) :=
  match v with Float32Array xs => Returns xs | _ => Throws bad_variant_access end.

(** The alternative that is active. *)
Inductive Kind : Type :=
| KUndefined | KNull | KBoolean | KNumber | KString | KArray | KObject
| KFloat32Array.

Definition kind (v : Value) : Kind :=
  match v with
  | Undefined => KUndefined
  | Null => KNull
  | Boolean _ => KBoolean
  | Number _ => KNumber
  | String _ => KString
  | Array _ => KArray
  | Object _ => KObject
  | Float32Array _ => KFloat32Array
  end.

End js.

(* ===================================================================== *)
(** * The handoff queue and the shared resource map *)
(* ===================================================================== *)

(** [std::shared_ptr<T>]: null or an object. *)
Abbreviation shared_ptr T := (option T) (only parsing).
Abbreviation nullptr := None (only parsing).

(** Modelled from the spec: [SingleWriterSingleReaderQueue<T>]
    (SingleWriterSingleReaderQueue.h is not among the sources). Spec 4.4: a
    bounded single-producer/single-consumer channel; [push] does not block
    and drops the item silently when the bound is exceeded; the consumer's
    pop does not block and reports whether it took an item; items are
    observed in production order. *)
Module SingleWriterSingleReaderQueue.

Record t (T : Type) : Type := mk { capacity : nat; items : list T }.
Arguments mk {T} capacity items.
Arguments capacity {T} _.
Arguments items {T} _.

Definition size {T} (q : t T) : nat := length (items q).

Definition push {T} (el : T) (q : t T) : t T :=
  if bool_decide (size q < capacity q)%nat
  then mk (capacity q) (items q ++ [el])
  else q.

(** [pop(el)]: the oldest item is moved into the caller's slot [el]. *)
Definition pop {T} (q : t T) (el : T) : t T * T * bool :=
  match items q with
  | x :: rest => (mk (capacity q) rest, x, true)
  | [] => (q, el, false)
  end.

End SingleWriterSingleReaderQueue.

Module Queue := SingleWriterSingleReaderQueue.

(** Modelled from the spec: [SharedResourceMap<float>] (its header is not
    among the sources). Spec 4.2: [has(path)], [get(path)] failing with
    ResourceNotFound when absent, [put(path, floats)] inserting or
    replacing. *)
Module SharedResourceMap.

Abbreviation t := (gmap string (list spec_float)) (only parsing).

Definition has (resources : t) (path : string) : bool :=
  bool_decide (is_Some (resources !! path)).

Definition get (resources : t) (path : string) : outcome (list spec_float) :=
  match resources !! path with
  | Some buffer => Returns buffer
  | None => Throws ResourceNotFound
  end.

Definition put (path : string) (floats : list spec_float) (resources : t) : t :=
  <[path := floats]> resources.

End SharedResourceMap.

(* ===================================================================== *)
(** * The convolution node *)
(* ===================================================================== *)

(** [fftconvolver::TwoStageFFTConvolver], an external collaborator: the
    node only constructs it, resets it, initialises it from an impulse
    response and asks it to render a block. [conv_process c input output
    len] is [c.process(input, output, len)]: it gets the input channel and
    the output buffer and leaves a convolver state and an output buffer. *)
Class TwoStageFFTConvolver : Type := {
  Convolver : Type;
  conv_new : Convolver;
  conv_reset : Convolver → Convolver;
  conv_init : Z → Z → list spec_float → Convolver → Convolver;
  conv_process :
    Convolver → list spec_float → list spec_float → nat →
    Convolver * list spec_float;
}.

(** [BlockContext<FloatType>]: the channel pointers, the output pointer and
    the two counts (unsigned) handed to a node for one block. A pointer is
    the buffer it points to. *)
Record BlockContext : Type := {
  inputData : list (list spec_float);
  outputData : list spec_float;
  numInputChannels : nat;
  numSamples : nat;
}.

(** [ConvolutionNode<float>]: the members of [GraphNode] that the factory
    passes to the inherited constructor, the property store of the base
    class, and the node's own two members. *)
Record ConvolutionNode `{TwoStageFFTConvolver} : Type := {
  nodeId : Z;
  sampleRate : spec_float;
  blockSize : Z;
  props : gmap string js.Value;
  convolverQueue : Queue.t (shared_ptr Convolver);
  convolver : shared_ptr Convolver;
}.

Section ConvolutionNode.
Context `{TwoStageFFTConvolver}.

Definition set_props (f : gmap string js.Value → gmap string js.Value)
    (n : ConvolutionNode) : ConvolutionNode :=
  {| nodeId := nodeId n; sampleRate := sampleRate n; blockSize := blockSize n;
     props := f (props n);
     convolverQueue := convolverQueue n; convolver := convolver n |}.

Definition set_convolverQueue
    (f : Queue.t (shared_ptr Convolver) → Queue.t (shared_ptr Convolver))
    (n : ConvolutionNode) : ConvolutionNode :=
  {| nodeId := nodeId n; sampleRate := sampleRate n; blockSize := blockSize n;
     props := props n;
     convolverQueue := f (convolverQueue n); convolver := convolver n |}.

Definition set_convolver (c : shared_ptr Convolver)
    (n : ConvolutionNode) : ConvolutionNode :=
  {| nodeId := nodeId n; sampleRate := sampleRate n; blockSize := blockSize n;
     props := props n;
     convolverQueue := convolverQueue n; convolver := c |}.

(** Modelled from the spec: [GraphNode<FloatType>::setProperty(key, val)]
    (GraphNode.h is not among the sources). Spec 3: the property store is
    a mapping of String to Dynamic Value, last write wins per key. *)
Definition GraphNode_setProperty (key : string) (val : js.Value)
    : M ConvolutionNode unit :=
  modify (set_props (λ store, <[key := val]> store)).

(** [ConvolutionNode::setProperty(key, val, resources)] *)
Definition setProperty (key : string) (val : js.Value)
    (resources : SharedResourceMap.t) : M ConvolutionNode unit :=
  GraphNode_setProperty key val ;;
  if bool_decide (key = "path") then
    invariant (js.isString val) "path prop must be a string" ;;
    path ← lift (js.to_String val) ;
    invariant (SharedResourceMap.has resources path)
              "failed to find a resource at the given path" ;;
    path ← lift (js.to_String val) ;
    ref ← lift (SharedResourceMap.get resources path) ;
    let co := conv_new in
    let co := conv_reset co in
    let co := conv_init 512 4096 ref co in
    modify (set_convolverQueue (Queue.push (Some co)))
  else
    mret tt.

(** [convolverQueue.pop(convolver)] *)
Definition pop_convolver (n : ConvolutionNode) : ConvolutionNode :=
  let '(q, el, _) := Queue.pop (convolverQueue n) (convolver n) in
  set_convolver el (set_convolverQueue (λ _, q) n).

(** [while (convolverQueue.size() > 0) convolverQueue.pop(convolver);] *)
Equations drain (n : ConvolutionNode) : ConvolutionNode
  by wf (Queue.size (convolverQueue n)) lt :=
  drain n with inspect (0 <? Queue.size (convolverQueue n))%nat := {
    | exist _ true Hmore => drain (pop_convolver n)
    | exist _ false Hdone => n }.
Next Obligation.
  clear drain; revert Hmore.
  unfold pop_convolver, Queue.pop, Queue.size.
  destruct (Queue.items (convolverQueue n)); simpl; [discriminate | lia].
Qed.

(** [ConvolutionNode::process(ctx)]: the node after the block and the
    output buffer it leaves. *)
Definition process (ctx : BlockContext) (n : ConvolutionNode)
    : outcome (ConvolutionNode * list spec_float) :=
  let inputData := inputData ctx in
  let outputData := outputData ctx in
  let numChannels := numInputChannels ctx in
  let numSamples := numSamples ctx in
  let n := drain n in
  if bool_decide (numChannels = 0%nat) || bool_decide (convolver n = nullptr) then
    Returns (n, Cpp.fill_n outputData numSamples Cpp.float_zero)
  else
    match convolver n, inputData !! 0%nat with
    | Some co, Some input0 =>
        let '(co, out) := conv_process co input0 outputData numSamples in
        Returns (set_convolver (Some co) n, out)
    | _, _ => Undefined
    end.

End ConvolutionNode.

(* ===================================================================== *)
(** * Host values ([emscripten::val]) *)
(* ===================================================================== *)

(** A handle to a value of the host that is plain data. Host data crosses
    the boundary by value (spec 3: no aliasing between the host's
    representation and the engine's), so such a value is the finite tree of
    what it holds; an object is the list of its own enumerable string-keyed
    properties in the order of [Object.keys]. [symbol] stands for the
    primitives that are none of the others, [bare] for an object that does
    not have [Object.prototype] in its prototype chain; nothing of what a
    function or a bare object holds is looked at. The host itself holds
    objects by reference, and not every value of the host is such a tree:
    see [Module host] below. *)
Module emscripten.

Inductive val : Type :=
| undefined
| null
| boolean (b : bool)
| number (d : spec_float)
| text (s : string)
| float32array (xs : list spec_float)
| array (xs : list val)
| func
| object (properties : list (string * val))
| symbol
| bare.

Definition isUndefined (v : val) : bool :=
  match v with undefined => true | _ => false end.
Definition isNull (v : val) : bool :=
  match v with null => true | _ => false end.
Definition isTrue (v : val) : bool :=
  match v with boolean true => true | _ => false end.
Definition isFalse (v : val) : bool :=
  match v with boolean false => true | _ => false end.
Definition isNumber (v : val) : bool :=
  match v with number _ => true | _ => false end.
Definition isString (v : val) : bool :=
  match v with text _ => true | _ => false end.
Definition isArray (v : val) : bool :=
  match v with array _ => true | _ => false end.

(** [v.instanceof(val::global(name))] for the three constructors that
    Main.cpp asks about: typed arrays, arrays and functions are objects
    too; a bare object is an instance of none. *)
Definition instanceof (v : val) (name : string) : bool :=
  match v with
  | float32array _ => bool_decide (name = "Float32Array") || bool_decide (name = "Object")
  | func => bool_decide (name = "Function") || bool_decide (name = "Object")
  | array _ | object _ => bool_decide (name = "Object")
  | _ => false
  end.

(** [v.as<double>()], [v.as<std::string>()] and
    [convertJSArrayToNumberVector<float>(v)]: the binding layer raises an
    error of the host when the value is of another type. *)
Definition as_double (v : val) : outcome spec_float :=
  match v with number d => Returns d | _ => Throws foreign_exception end.
Definition as_string (v : val) : outcome string :=
  match v with text s => Returns s | _ => Throws foreign_exception end.
Definition convertJSArrayToNumberVector (v : val) : outcome (list spec_float) :=
  match v with float32array xs => Returns xs | _ => Throws foreign_exception end.

End emscripten.

(** [ret.insert({key, value})] on a [std::map]: an entry that is there
    stays. *)
Definition map_insert_new (key : string) (value : js.Value)
    (ret : gmap string js.Value) : gmap string js.Value :=
  match ret !! key with
  | Some _ => ret
  | None => <[key := value]> ret
  end.

(** The loop of the array case of [emValToValue],
    [for (int i = 0; i < length; ++i) ret.push_back(emValToValue(v[i]))],
    from index [i] on: [elements] are [v[i]], [v[i+1]], ... *)
Definition convert_elements (emValToValue : emscripten.val → outcome js.Value)
    (length : Z) : Z → list emscripten.val → list js.Value → outcome js.Value :=
  fix loop (i : Z) (elements : list emscripten.val) (ret : list js.Value) :=
    match elements with
    | x :: elements =>
        if bool_decide (i < length) then
          r ← emValToValue x ; loop (i + 1) elements (ret ++ [r])
        else Returns (js.Array ret)
    | [] => Returns (js.Array ret)
    end.

(** The loop of the object case,
    [for (size_t i = 0; i < numKeys; ++i)
       ret.insert({keys[i].as<std::string>(), emValToValue(v[keys[i]])})],
    from index [i] on: [keys] are [keys[i]], [keys[i+1]], ... , each with
    the value that the object holds under it. *)
Definition convert_properties (emValToValue : emscripten.val → outcome js.Value)
    (numKeys : Z)
    : Z → list (string * emscripten.val) → gmap string js.Value → outcome js.Value :=
  fix loop (i : Z) (keys : list (string * emscripten.val))
           (ret : gmap string js.Value) :=
    match keys with
    | (key, x) :: keys =>
        if bool_decide (i < numKeys) then
          r ← emValToValue x ; loop (i + 1) keys (map_insert_new key r ret)
        else Returns (js.Object ret)
    | [] => Returns (js.Object ret)
    end.

(** [ElementaryAudioProcessor::emValToValue(v)]. The array case reads
    [v["length"]] as an [int], the object case the number of keys as a
    [size_t]. *)
Fixpoint emValToValue (v : emscripten.val) : outcome js.Value :=
  if emscripten.isUndefined v then Returns js.Undefined
  else if emscripten.isNull v then Returns js.Null
  else if emscripten.isTrue v then Returns (js.Boolean true)
  else if emscripten.isFalse v then Returns (js.Boolean false)
  else if emscripten.isNumber v then
    d ← emscripten.as_double v ; Returns (js.Number d)
  else if emscripten.isString v then
    s ← emscripten.as_string v ; Returns (js.String s)
  else if emscripten.instanceof v "Float32Array" then
    xs ← emscripten.convertJSArrayToNumberVector v ; Returns (js.Float32Array xs)
  else if emscripten.isArray v then
    match v with
    | emscripten.array xs =>
        let length := Cpp.to_int (Z.of_nat (length xs)) in
        convert_elements emValToValue length 0 xs []
    | _ => Throws foreign_exception
    end
  else if emscripten.instanceof v "Function" then Returns js.Undefined
  else if emscripten.instanceof v "Object" then
    match v with
    | emscripten.object properties =>
        let numKeys := Cpp.to_size_t (Z.of_nat (length properties)) in
        convert_properties emValToValue numKeys 0 properties ∅
    | _ => Throws foreign_exception
    end
  else Returns js.Undefined.

(* ===================================================================== *)
(** * Host values by reference *)
(* ===================================================================== *)

(** The host holds an object by reference, and an array or an object of
    the host may hold a reference to itself. A value of the host is a
    primitive or a reference into the host's heap; the objects of this
    model are the Float32Arrays, the arrays, the functions and the ordinary
    objects whose elements and properties are data properties ([Object
    inherits properties]: the own enumerable string-keyed properties in the
    order of [Object.keys], and whether [Object.prototype] is in the
    prototype chain). Accessor properties and proxies, which run code of
    the host when they are read, and boxed primitives are not among
    them. *)
Module host.

Inductive value : Type :=
| undefined
| null
| boolean (b : bool)
| number (d : spec_float)
| text (s : string)
| symbol
| reference (r : nat).

Inductive object : Type :=
| Float32Array (xs : list spec_float)
| Array (elements : list value)
| Function
| Object (inherits : bool) (properties : list (string * value)).

Definition heap : Type := nat → object.

Definition isUndefined (v : value) : bool :=
  match v with undefined => true | _ => false end.
Definition isNull (v : value) : bool :=
  match v with null => true | _ => false end.
Definition isTrue (v : value) : bool :=
  match v with boolean true => true | _ => false end.
Definition isFalse (v : value) : bool :=
  match v with boolean false => true | _ => false end.
Definition isNumber (v : value) : bool :=
  match v with number _ => true | _ => false end.
Definition isString (v : value) : bool :=
  match v with text _ => true | _ => false end.
Definition isArray (h : heap) (v : value) : bool :=
  match v with
  | reference r => match h r with Array _ => true | _ => false end
  | _ => false
  end.

(** [v.instanceof(val::global(name))] *)
Definition instanceof (h : heap) (v : value) (name : string) : bool :=
  match v with
  | reference r =>
      match h r with
      | Float32Array _ =>
          bool_decide (name = "Float32Array") || bool_decide (name = "Object")
      | Function => bool_decide (name = "Function") || bool_decide (name = "Object")
      | Array _ => bool_decide (name = "Object")
      | Object inherits _ => inherits && bool_decide (name = "Object")
      end
  | _ => false
  end.

Definition as_double (v : value) : outcome spec_float :=
  match v with number d => Returns d | _ => Throws foreign_exception end.
Definition as_string (v : value) : outcome string :=
  match v with text s => Returns s | _ => Throws foreign_exception end.
Definition convertJSArrayToNumberVector (h : heap) (v : value)
    : outcome (list spec_float) :=
  match v with
  | reference r =>
      match h r with Float32Array xs => Returns xs | _ => Throws foreign_exception end
  | _ => Throws foreign_exception
  end.

(** What [v[0]], [v[1]], ... read on an array, and what [Object.keys(v)]
    lists on an object, each key with what [v[key]] reads. *)
Definition elements_of (h : heap) (v : value) : list value :=
  match v with
  | reference r => match h r with Array elements => elements | _ => [] end
  | _ => []
  end.
Definition properties_of (h : heap) (v : value) : list (string * value) :=
  match v with
  | reference r => match h r with Object _ properties => properties | _ => [] end
  | _ => []
  end.

(** A call of [emValToValue] that has not returned within the nesting
    depth it was given is [None]. *)
Definition running (A : Type) : Type := option (outcome A).

(** The loop of the array case, as [convert_elements] above. *)
Definition convert_elements (emValToValue : value → running js.Value)
    (length : Z) : Z → list value → list js.Value → running js.Value :=
  fix loop (i : Z) (elements : list value) (ret : list js.Value) :=
    match elements with
    | x :: elements =>
        if bool_decide (i < length) then
          match emValToValue x with
          | Some (Returns r) => loop (i + 1) elements (ret ++ [r])
          | Some (Throws e) => Some (Throws e)
          | Some Undefined => Some Undefined
          | None => None
          end
        else Some (Returns (js.Array ret))
    | [] => Some (Returns (js.Array ret))
    end.

(** The loop of the object case, as [convert_properties] above. *)
Definition convert_properties (emValToValue : value → running js.Value)
    (numKeys : Z)
    : Z → list (string * value) → gmap string js.Value → running js.Value :=
  fix loop (i : Z) (keys : list (string * value)) (ret : gmap string js.Value) :=
    match keys with
    | (key, x) :: keys =>
        if bool_decide (i < numKeys) then
          match emValToValue x with
          | Some (Returns r) => loop (i + 1) keys (map_insert_new key r ret)
          | Some (Throws e) => Some (Throws e)
          | Some Undefined => Some Undefined
          | None => None
          end
        else Some (Returns (js.Object ret))
    | [] => Some (Returns (js.Object ret))
    end.

(** [ElementaryAudioProcessor::emValToValue(v)] on a value of the host's
    heap [h], with room for [fuel] nested calls: the recursion follows the
    references. *)
Fixpoint emValToValue (h : heap) (fuel : nat) (v : value) : running js.Value :=
  match fuel with
  | O => None
  | S fuel =>
      if isUndefined v then Some (Returns js.Undefined)
      else if isNull v then Some (Returns js.Null)
      else if isTrue v then Some (Returns (js.Boolean true))
      else if isFalse v then Some (Returns (js.Boolean false))
      else if isNumber v then
        Some (d ← as_double v ; Returns (js.Number d))
      else if isString v then
        Some (s ← as_string v ; Returns (js.String s))
      else if instanceof h v "Float32Array" then
        Some (xs ← convertJSArrayToNumberVector h v ; Returns (js.Float32Array xs))
      else if isArray h v then
        let elements := elements_of h v in
        let length := Cpp.to_int (Z.of_nat (length elements)) in
        convert_elements (emValToValue h fuel) length 0 elements []
      else if instanceof h v "Function" then Some (Returns js.Undefined)
      else if instanceof h v "Object" then
        let properties := properties_of h v in
        let numKeys := Cpp.to_size_t (Z.of_nat (length properties)) in
        convert_properties (emValToValue h fuel) numKeys 0 properties ∅
      else Some (Returns js.Undefined)
  end.


End host.

(** The order in which a [std::map<std::string, Value>] is walked: by key,
    byte for byte. *)
Definition key_le (a b : string * emscripten.val) : Prop := String.le a.1 b.1.

#[export] Instance key_le_dec a b : Decision (key_le a b) := _.

(** What the binding layer and the host make of the two calls of
    [valueToEmVal] whose outcome is the host's business (spec 1: the
    binding layer is an external collaborator). [UTF8ToString s] is the
    string of the host that [val(s)] makes of the bytes of a [std::string],
    written as the bytes that [as<std::string>] reads it back as.
    [emval_set_property o key x] is the object of the host after
    [o.set(key, x)], the key decoded likewise. *)
Class Embind : Type := {
  UTF8ToString : string → string;
  emval_set_property : emscripten.val → string → emscripten.val → emscripten.val;
}.

(** [ElementaryAudioProcessor::valueToEmVal(v)]. An array is filled index
    by index; a Float32Array of the host is made of the right length and
    each [float] is stored into it as a number of the host; an object of
    the host is made empty and gets its properties set one by one in the
    order of the map. *)
Fixpoint valueToEmVal `{Embind} (v : js.Value) : emscripten.val :=
  match v with
  | js.Undefined => emscripten.undefined
  | js.Null => emscripten.null
  | js.Boolean b => emscripten.boolean b
  | js.Number d => emscripten.number d
  | js.String s => emscripten.text (UTF8ToString s)
  | js.Array va => emscripten.array (map valueToEmVal va)
  | js.Float32Array va =>
      emscripten.float32array (map (λ x, Cpp.to_float (Cpp.to_double x)) va)
  | js.Object vo =>
      foldl (λ ret e, emval_set_property ret e.1 e.2) (emscripten.object [])
        (merge_sort key_le (map_to_list (valueToEmVal <$> vo)))
  end.

(* ===================================================================== *)
(** * Node variants and the runtime *)
(* ===================================================================== *)

(** The bound of a default-constructed handoff queue: the queue's header
    is not among the sources, and the spec gives no figure for it. *)
Class HandoffBound : Type := default_capacity : nat.

(** The engine's node variants. Main.cpp constructs the first four; of the
    FFT, the metronome and the sample-time node only the constructor call is
    in the sources: identity, sample rate and block size. [CoreNode] is a
    node of a kind that the runtime registers by itself. *)
Inductive GraphNode `{TwoStageFFTConvolver} : Type :=
| ConvolutionNode_ (n : ConvolutionNode)
| FFTNode (id : Z) (fs : spec_float) (bs : Z)
| MetronomeNode (id : Z) (fs : spec_float) (bs : Z)
| SampleTimeNode (id : Z) (fs : spec_float) (bs : Z)
| CoreNode (kind : string) (id : Z) (fs : spec_float) (bs : Z).

(** [std::make_shared<elem::ConvolutionNode<float>>(id, fs, bs)]: the
    inherited [GraphNode] constructor, an empty property store, an empty
    queue and a null convolver. *)
Definition ConvolutionNode_new `{TwoStageFFTConvolver, HandoffBound}
    (id : Z) (fs : spec_float) (bs : Z) : ConvolutionNode :=
  {| nodeId := id; sampleRate := fs; blockSize := bs;
     props := ∅;
     convolverQueue := Queue.mk default_capacity [];
     convolver := nullptr |}.

(** [Runtime::NodeFactoryFn] *)
Abbreviation NodeFactoryFn := (Z → spec_float → Z → GraphNode) (only parsing).

(** What [Runtime.h] keeps private and Main.cpp never sees: the pending
    nodes and the committed topology ([Graph]), and the node kinds that the
    runtime's own constructor registers before Main.cpp adds its extension
    nodes ([coreNodeTypes]). *)
Class RuntimeParts `{TwoStageFFTConvolver} : Type := {
  Graph : Type;
  new_graph : Graph;
  coreNodeTypes : gmap string NodeFactoryFn;
}.

(** [elem::Runtime<float>] *)
Record Runtime `{RuntimeParts} : Type := {
  rt_sampleRate : spec_float;
  rt_blockSize : Z;
  nodeFactory : gmap string NodeFactoryFn;
  sharedResourceMap : SharedResourceMap.t;
  graph : Graph;
}.

(** The two entry points of the runtime whose bodies are not among the
    sources. [applyInstructions batch] may throw.
    [Runtime_process scratch inputs numIns outputs numOuts numSamples
    userData] gets the work buffers, the input and output pointers (each the
    index of the buffer it points into), the counts and the value behind the
    [userData] pointer; it leaves the work buffers and the value behind
    [userData]. *)
Class RuntimeEntryPoints `{RuntimeParts} : Type := {
  applyInstructions : list js.Value → M Runtime unit;
  Runtime_process :
    list (list spec_float) → list nat → Z → list nat → Z → Z → Z →
    M Runtime (list (list spec_float) * Z);
}.

(** Two more entry points of the runtime whose bodies are not among the
    sources. [Runtime_reset] is [reset()]. [Runtime_processQueuedEvents] is
    [processQueuedEvents(callback)] seen from its caller: the event types
    and payloads that it hands to the callback, in the order of the calls.
    Either may throw. *)
Class RuntimeEvents `{RuntimeParts} : Type := {
  Runtime_reset : M Runtime unit;
  Runtime_processQueuedEvents : M Runtime (list (string * js.Value));
}.

Section Runtime.
Context `{RuntimeParts}.

(** Modelled from the spec: the constructor [Runtime(sampleRate,
    blockSize)] (Runtime.h is not among the sources). Spec 9: the registry
    is state of one runtime instance; a new runtime keeps its two
    arguments, has no resource yet, and has in its registry the kinds it
    registers by itself. *)
Definition Runtime_new (sampleRate : spec_float) (blockSize : Z) : Runtime :=
  {| rt_sampleRate := sampleRate; rt_blockSize := blockSize;
     nodeFactory := coreNodeTypes;
     sharedResourceMap := ∅;
     graph := new_graph |}.

(** Modelled from the spec: [Runtime::registerNodeType(type, fn)]
    (Runtime.h is not among the sources). Spec 6 and 9: a registry owned by
    the runtime maps string tags to constructors; the registration puts
    [fn] under [type]. *)
Definition registerNodeType (type : string) (fn : NodeFactoryFn) : M Runtime unit :=
  modify (λ rt,
    {| rt_sampleRate := rt_sampleRate rt; rt_blockSize := rt_blockSize rt;
       nodeFactory := <[type := fn]> (nodeFactory rt);
       sharedResourceMap := sharedResourceMap rt;
       graph := graph rt |}).

(** Modelled from the spec: [Runtime::updateSharedResourceMap(name, data,
    size)] (Runtime.h is not among the sources). Spec 4.2: [put(path,
    floats)] inserts or replaces; the [size] floats behind [data] are
    copied. *)
Definition Runtime_updateSharedResourceMap (name : string)
    (data : list spec_float) (size : nat) : M Runtime unit :=
  modify (λ rt,
    {| rt_sampleRate := rt_sampleRate rt; rt_blockSize := rt_blockSize rt;
       nodeFactory := nodeFactory rt;
       sharedResourceMap :=
         SharedResourceMap.put name (take size data) (sharedResourceMap rt);
       graph := graph rt |}).

(** Modelled from the spec: the kind lookup of a create instruction (the
    graph builder is not among the sources). Spec 6: the kind is looked up
    by its string tag in the factory registry; an unregistered kind fails
    with UnknownNodeKind; a registered one is constructed by its factory
    with the runtime's sample rate and block size. *)
Inductive Created : Type :=
| Node (n : GraphNode)
| UnknownNodeKind.

Definition createNode (kind : string) (id : Z) (rt : Runtime) : Created :=
  match nodeFactory rt !! kind with
  | Some fn => Node (fn id (rt_sampleRate rt) (rt_blockSize rt))
  | None => UnknownNodeKind
  end.

End Runtime.

(* ===================================================================== *)
(** * The processor of Main.cpp *)
(* ===================================================================== *)

Module Main.

(** What the host sees of a call into the processor, in order: the calls
    of a callback it passed in, and (to tell whether the runtime was
    reached) the calls of the runtime's two opaque entry points. *)
Inductive HostEvent : Type :=
| Called (callback : emscripten.val) (args : list emscripten.val)
| applyInstructions_called (batch : list js.Value)
| process_called (numSamples : Z) (userData : Z).

(** [class ElementaryAudioProcessor]. A scratch pointer is the index of
    the scratch buffer it points into. *)
Record ElementaryAudioProcessor `{RuntimeParts} : Type := {
  runtime : option Runtime;
  scratchBuffers : list (list spec_float);
  scratchPointers : list nat;
  sampleTime : Z;
  numInputChannels : Z;
  numOutputChannels : Z;
}.

(** The processor together with the record of what the host has seen. *)
Record Host `{RuntimeParts} : Type := {
  this : ElementaryAudioProcessor;
  events : list HostEvent;
}.

Section Processor.
Context `{RuntimeEntryPoints, HandoffBound}.

(** [ElementaryAudioProcessor(numIns, numOuts)] *)
Definition new (numIns numOuts : Z) : ElementaryAudioProcessor :=
  {| runtime := None;
     scratchBuffers := [];
     scratchPointers := [];
     sampleTime := 0;
     numInputChannels := Cpp.to_size_t numIns;
     numOutputChannels := Cpp.to_size_t numOuts |}.

Definition set_runtime (rt : option Runtime) (p : ElementaryAudioProcessor)
    : ElementaryAudioProcessor :=
  {| runtime := rt;
     scratchBuffers := scratchBuffers p; scratchPointers := scratchPointers p;
     sampleTime := sampleTime p;
     numInputChannels := numInputChannels p;
     numOutputChannels := numOutputChannels p |}.

Definition set_scratchBuffers (f : list (list spec_float) → list (list spec_float))
    (p : ElementaryAudioProcessor) : ElementaryAudioProcessor :=
  {| runtime := runtime p;
     scratchBuffers := f (scratchBuffers p); scratchPointers := scratchPointers p;
     sampleTime := sampleTime p;
     numInputChannels := numInputChannels p;
     numOutputChannels := numOutputChannels p |}.

Definition set_scratchPointers (f : list nat → list nat)
    (p : ElementaryAudioProcessor) : ElementaryAudioProcessor :=
  {| runtime := runtime p;
     scratchBuffers := scratchBuffers p; scratchPointers := f (scratchPointers p);
     sampleTime := sampleTime p;
     numInputChannels := numInputChannels p;
     numOutputChannels := numOutputChannels p |}.

Definition set_sampleTime (t : Z) (p : ElementaryAudioProcessor)
    : ElementaryAudioProcessor :=
  {| runtime := runtime p;
     scratchBuffers := scratchBuffers p; scratchPointers := scratchPointers p;
     sampleTime := t;
     numInputChannels := numInputChannels p;
     numOutputChannels := numOutputChannels p |}.

(** A statement on the members of the processor. *)
Definition update (f : ElementaryAudioProcessor → ElementaryAudioProcessor)
    : M Host unit :=
  modify (λ h, {| this := f (this h); events := events h |}).

Definition member {A} (f : ElementaryAudioProcessor → A) : M Host A :=
  gets (λ h, f (this h)).

Definition record (e : HostEvent) : M Host unit :=
  modify (λ h, {| this := this h; events := events h ++ [e] |}).

(** [callback(args...)]: the host runs the function it passed in. *)
Definition call (callback : emscripten.val) (args : list emscripten.val)
    : M Host unit :=
  record (Called callback args).

(** [runtime->f(...)]: undefined on the null pointer that the processor
    holds until [prepare] has run; the runtime keeps what [f] did to it,
    also when [f] throws. *)
Definition runtime_call {A} (seen : list HostEvent) (f : M Runtime A) : M Host A :=
  λ h, match runtime (this h) with
       | Some rt =>
           let '(r, rt) := f rt in
           (r, {| this := set_runtime (Some rt) (this h);
                  events := events h ++ seen |})
       | None => (Undefined, h)
       end.

Definition on_runtime {A} (f : M Runtime A) : M Host A := runtime_call [] f.

(** [for (int i = 0; i < count; ++i) body(i)] *)
Fixpoint for_loop {St} (i : nat) (count : nat) (body : nat → M St unit) : M St unit :=
  match count with
  | O => mret tt
  | S count => body i ;; for_loop (S i) count body
  end.

(** [ElementaryAudioProcessor::prepare(sampleRate, maxBlockSize)]. The two
    loops run [numInputChannels + numOutputChannels] times, the sum taken
    as a [size_t]; [maxBlockSize] is an [unsigned int], and an [int] where
    the runtime's constructor takes it. *)
Definition prepare (sampleRate : spec_float) (maxBlockSize : Z) : M Host unit :=
  let maxBlockSize := Cpp.to_unsigned maxBlockSize in
  update (set_scratchBuffers (λ _, [])) ;;
  update (set_scratchPointers (λ _, [])) ;;
  numIns ← member numInputChannels ;
  numOuts ← member numOutputChannels ;
  let count := Z.to_nat (Cpp.to_size_t (numIns + numOuts)) in
  for_loop 0 count (λ i,
    update (set_scratchBuffers
      (λ bufs, bufs ++ [replicate (Z.to_nat maxBlockSize) Cpp.float_zero]))) ;;
  for_loop 0 count (λ i,
    buffers ← member scratchBuffers ;
    match buffers !! i with
    | Some _ => update (set_scratchPointers (λ ptrs, ptrs ++ [i]))
    | None => undefined_behaviour
    end) ;;
  update (set_runtime (Some (Runtime_new sampleRate (Cpp.to_int maxBlockSize)))) ;;
  on_runtime (registerNodeType "convolve" (λ id fs bs,
    ConvolutionNode_ (ConvolutionNode_new id fs bs))) ;;
  on_runtime (registerNodeType "fft" (λ id fs bs, FFTNode id fs bs)) ;;
  on_runtime (registerNodeType "metro" (λ id fs bs, MetronomeNode id fs bs)) ;;
  on_runtime (registerNodeType "time" (λ id fs bs, SampleTimeNode id fs bs)).

(** [ElementaryAudioProcessor::postMessageBatch(payload, errorCallback)] *)
Definition postMessageBatch (payload errorCallback : emscripten.val) : M Host unit :=
  v ← lift (emValToValue payload) ;
  if negb (js.isArray v) then
    call errorCallback
      [emscripten.text "error"; emscripten.text "Malformed message batch."]
  else
    batch ← lift (js.getArray v) ;
    try_catch
      (runtime_call [applyInstructions_called batch] (applyInstructions batch))
      (λ e,
         match e with
         | InvariantViolation what =>
             call errorCallback [emscripten.text "error"; emscripten.text what]
         | bad_variant_access =>
             call errorCallback
               [emscripten.text "error"; emscripten.text "Bad variant access"]
         | _ =>
             call errorCallback
               [emscripten.text "error"; emscripten.text "Unhandled exception"]
         end).

(** [ElementaryAudioProcessor::arrayToFloatVector(ar)] *)
Definition arrayToFloatVector (ar : list js.Value) : M Host (list spec_float) :=
  try_catch
    (lift (mapM (λ x, d ← js.to_Number x ; mret (Cpp.to_float d)) ar))
    (λ e,
       if is_std_exception e then
         throw (InvariantViolation
                  "Failed to convert Array to float vector; invalid array child!")
       else throw e).

(** [ElementaryAudioProcessor::updateSharedResourceMap(path, buffer,
    errorCallback)] *)
Definition updateSharedResourceMap (path buffer errorCallback : emscripten.val)
    : M Host unit :=
  p ← lift (emValToValue path) ;
  b ← lift (emValToValue buffer) ;
  if negb (js.isString p) then
    call errorCallback [emscripten.text "Path must be a string type"]
  else if negb (js.isArray b) && negb (js.isFloat32Array b) then
    call errorCallback
      [emscripten.text "Buffer argument must be an Array or Float32Array type"]
  else
    try_catch
      (buf ← (if js.isArray b
              then ar ← lift (js.getArray b) ; arrayToFloatVector ar
              else lift (js.getFloat32Array b)) ;
       name ← lift (js.to_String p) ;
       on_runtime (Runtime_updateSharedResourceMap name buf (length buf)))
      (λ e,
         match e with
         | InvariantViolation _ =>
             call errorCallback
               [emscripten.text "Invalid buffer for updating resource map"]
         | _ => throw e
         end).

(** [ElementaryAudioProcessor::process(numSamples)] *)
Definition process (numSamples : Z) : M Host unit :=
  let numSamples := Cpp.to_int numSamples in
  buffers ← member scratchBuffers ;
  pointers ← member scratchPointers ;
  numIns ← member numInputChannels ;
  numOuts ← member numOutputChannels ;
  userData ← member sampleTime ;
  r ← runtime_call [process_called numSamples userData]
        (Runtime_process buffers
           pointers numIns
           (drop (Z.to_nat numIns) pointers) numOuts
           numSamples userData) ;
  update (set_scratchBuffers (λ _, r.1)) ;;
  update (set_sampleTime r.2) ;;
  t ← member sampleTime ;
  update (set_sampleTime (Cpp.to_int64 (t + numSamples))).

(** A call from the host: the member function run on the processor, with
    nothing seen by the host yet. *)
Definition run {A} (f : M Host A) (p : ElementaryAudioProcessor)
    : outcome A * Host :=
  f {| this := p; events := [] |}.

(** [typed_memory_view(len, data)]: a window of the host onto [size]
    floats of the work buffer [data], not a copy of them. *)
Record typed_memory_view : Type := { data : nat; size : nat }.

(** [ElementaryAudioProcessor::getInputBufferData(index)]: the vector is
    indexed with the [int] as a [size_t], unchecked. *)
Definition getInputBufferData (index : Z) : M Host typed_memory_view :=
  let index := Cpp.to_int index in
  buffers ← member scratchBuffers ;
  let at_ := Z.to_nat (Cpp.to_size_t index) in
  match buffers !! at_ with
  | Some buffer => mret {| data := at_; size := length buffer |}
  | None => undefined_behaviour
  end.

(** [ElementaryAudioProcessor::getOutputBufferData(index)]: likewise at
    [numInputChannels + index], the sum taken as a [size_t]. *)
Definition getOutputBufferData (index : Z) : M Host typed_memory_view :=
  let index := Cpp.to_int index in
  buffers ← member scratchBuffers ;
  numIns ← member numInputChannels ;
  let at_ := Z.to_nat (Cpp.to_size_t (numIns + index)) in
  match buffers !! at_ with
  | Some buffer => mret {| data := at_; size := length buffer |}
  | None => undefined_behaviour
  end.

Context `{!RuntimeEvents}.

(** [ElementaryAudioProcessor::reset()] *)
Definition reset : M Host unit := on_runtime Runtime_reset.

Context `{!Embind}.

(** [ElementaryAudioProcessor::processQueuedEvents(callback)]: the lambda
    appends the pair [[type, evt]] to the batch for every event of the
    runtime; the callback gets the batch as one array of the host. *)
Definition processQueuedEvents (callback : emscripten.val) : M Host unit :=
  queued ← on_runtime Runtime_processQueuedEvents ;
  let batch :=
    foldl (λ batch e, batch ++ [js.Array [js.String e.1; e.2]]) [] queued in
  call callback [valueToEmVal (js.Array batch)].

End Processor.
End Main.

(* ===================================================================== *)
(** * Vocabulary of the properties *)
(* ===================================================================== *)

(** The control context pushes the payloads [ps], oldest first, into the
    node's handoff queue. *)
Definition enqueue_all `{TwoStageFFTConvolver}
    (ps : list (shared_ptr Convolver)) (n : ConvolutionNode) : ConvolutionNode :=
  foldl (λ n p, set_convolverQueue (Queue.push p) n) n ps.

(** The state of a node that has taken the payload [p] as its convolver
    and whose queue is empty. *)
Definition adopted `{TwoStageFFTConvolver}
    (p : shared_ptr Convolver) (n : ConvolutionNode) : ConvolutionNode :=
  set_convolver p (set_convolverQueue (λ q, Queue.mk (Queue.capacity q) []) n).

(** The node with [p] as the newest item of its handoff queue. *)
Definition enqueued `{TwoStageFFTConvolver}
    (p : shared_ptr Convolver) (n : ConvolutionNode) : ConvolutionNode :=
  set_convolverQueue (λ q, Queue.mk (Queue.capacity q) (Queue.items q ++ [p])) n.

(** The node with [val] written to its property store under [key]. *)
Definition stored `{TwoStageFFTConvolver}
    (key : string) (val : js.Value) (n : ConvolutionNode) : ConvolutionNode :=
  set_props (λ store, <[key := val]> store) n.

(** The convolver that [setProperty] builds from a resource. *)
Definition built_from `{TwoStageFFTConvolver} (ref : list spec_float) : Convolver :=
  conv_init 512 4096 ref (conv_reset conv_new).



(** The message that [postMessageBatch] hands to the error callback for an
    exception of [applyInstructions]. *)
Definition batch_error_message (e : exception) : string :=
  match e with
  | InvariantViolation what => what
  | bad_variant_access => "Bad variant access"
  | _ => "Unhandled exception"
  end.

(** The float buffer that a dynamic value holds for the Shared Resource
    Map: a Float32Array as it is, an Array of Numbers with every element
    narrowed to [float]; nothing else is a buffer. *)
Definition buffer_floats (b : js.Value) : option (list spec_float) :=
  match b with
  | js.Float32Array xs => Some xs
  | js.Array ar =>
      mapM (λ x, match x with js.Number d => Some (Cpp.to_float d) | _ => None end) ar
  | _ => None
  end.

(** The runtime with [floats] in its Shared Resource Map at [name],
    inserted or in the place of what was there. *)
Definition with_resource `{RuntimeParts} (name : string) (floats : list spec_float)
    (rt : Runtime) : Runtime :=
  {| rt_sampleRate := rt_sampleRate rt; rt_blockSize := rt_blockSize rt;
     nodeFactory := nodeFactory rt;
     sharedResourceMap := <[name := floats]> (sharedResourceMap rt);
     graph := graph rt |}.


(** A registry after the four registrations of [prepare]. *)
Definition extended `{RuntimeParts, HandoffBound}
    (registry : gmap string NodeFactoryFn) : gmap string NodeFactoryFn :=
  <["time" := λ id fs bs, SampleTimeNode id fs bs]>
    (<["metro" := λ id fs bs, MetronomeNode id fs bs]>
       (<["fft" := λ id fs bs, FFTNode id fs bs]>
          (<["convolve" := λ id fs bs, ConvolutionNode_ (ConvolutionNode_new id fs bs)]>
             registry))).

(** The number of scratch buffers of a processor. *)
Definition scratch_count `{RuntimeParts} (p : Main.ElementaryAudioProcessor) : nat :=
  Z.to_nat (Cpp.to_size_t (Main.numInputChannels p + Main.numOutputChannels p)).

(** The processor that [prepare] leaves. *)
Definition prepared `{RuntimeParts, HandoffBound}
    (sampleRate : spec_float) (maxBlockSize : Z)
    (p : Main.ElementaryAudioProcessor) : Main.ElementaryAudioProcessor :=
  {| Main.runtime :=
       Some {| rt_sampleRate := sampleRate;
               rt_blockSize := Cpp.to_int (Cpp.to_unsigned maxBlockSize);
               nodeFactory := extended coreNodeTypes;
               sharedResourceMap := ∅;
               graph := new_graph |};
     Main.scratchBuffers :=
       replicate (scratch_count p)
         (replicate (Z.to_nat (Cpp.to_unsigned maxBlockSize)) Cpp.float_zero);
     Main.scratchPointers := seq 0 (scratch_count p);
     Main.sampleTime := Main.sampleTime p;
     Main.numInputChannels := Main.numInputChannels p;
     Main.numOutputChannels := Main.numOutputChannels p |}.

(** The host takes a new property as it is given: [o.set(key, x)] on an
    ordinary object [o], for a key that the binding hands over unchanged,
    that is not "__proto__" (which names the prototype and no property)
    and that [o] does not have, leaves [o] with its properties and with
    [x] under [key], in an order of the host's choosing. *)
Definition sets_own_properties `{Embind} : Prop :=
  ∀ properties key x,
    key ≠ "__proto__" → UTF8ToString key = key → key ∉ properties.*1 →
    ∃ properties',
      emval_set_property (emscripten.object properties) key x
      = emscripten.object properties' ∧
      properties' ≡ₚ properties ++ [(key, x)].

(** A dynamic value that the host can hold and hand back whole: every
    string and every key is one that the binding hands over unchanged (as
    it does valid UTF-8), no key is "__proto__", an array has fewer than
    2^31 elements and an object fewer than 2^32 keys (the lengths that
    [emValToValue] reads as an [int] and as a [size_t]), and the elements
    of a Float32Array are [float]s. *)
Inductive fits `{Embind} : js.Value → Prop :=
| fits_undefined : fits js.Undefined
| fits_null : fits js.Null
| fits_boolean b : fits (js.Boolean b)
| fits_number d : fits (js.Number d)
| fits_string s : UTF8ToString s = s → fits (js.String s)
| fits_array va :
    Z.of_nat (length va) < 2 ^ 31 → Forall fits va → fits (js.Array va)
| fits_object vo :
    Z.of_nat (size vo) < 2 ^ 32 →
    map_Forall (λ key x, key ≠ "__proto__" ∧ UTF8ToString key = key ∧ fits x) vo →
    fits (js.Object vo)
| fits_float32array va :
    Forall (λ x, valid_binary 24 128 x = true) va → fits (js.Float32Array va).

(** The blocks of the given lengths, one [process] call after the other. *)
Definition process_all `{RuntimeEntryPoints} (lengths : list Z) : M Main.Host unit :=
  foldr (λ numSamples rest, Main.process numSamples ;; rest) (mret tt) lengths.

(** The calls of the runtime that blocks of the given lengths make when
    the first of them starts at sample time [t] and the runtime leaves the
    counter alone. *)
Fixpoint block_starts (t : Z) (lengths : list Z) : list Main.HostEvent :=
  match lengths with
  | [] => []
  | numSamples :: lengths =>
      Main.process_called (Cpp.to_int numSamples) t
      :: block_starts (Cpp.to_int64 (t + Cpp.to_int numSamples)) lengths
  end.

(** [keeps R f]: whatever the member function [f] does and however it
    ends, the processor it leaves is related by [R] to the one it found. *)
Definition keeps `{RuntimeParts} {A}
    (R : relation Main.ElementaryAudioProcessor) (f : M Main.Host A) : Prop :=
  ∀ h, R (Main.this h) (Main.this (f h).2).

(** The two channel counts are the same. *)
Definition same_channels `{RuntimeParts} : relation Main.ElementaryAudioProcessor :=
  λ p p', Main.numInputChannels p' = Main.numInputChannels p ∧
          Main.numOutputChannels p' = Main.numOutputChannels p.

(** The sample-time counter is the same. *)
Definition same_clock `{RuntimeParts} : relation Main.ElementaryAudioProcessor :=
  λ p p', Main.sampleTime p' = Main.sampleTime p.

(** The work buffers and the pointers into them are the same. *)
Definition same_buffers `{RuntimeParts} : relation Main.ElementaryAudioProcessor :=
  λ p p', Main.scratchBuffers p' = Main.scratchBuffers p ∧
          Main.scratchPointers p' = Main.scratchPointers p.

#[export] Instance same_channels_preorder `{RuntimeParts} : PreOrder same_channels.
Proof.
  split; [by intros p|].
  intros p q r [Hq1 Hq2] [Hr1 Hr2]. split; congruence.
Qed.

#[export] Instance same_clock_preorder `{RuntimeParts} : PreOrder same_clock.
Proof.
  split; [by intros p|]. intros p q r Hq Hr. unfold same_clock in *. congruence.
Qed.

#[export] Instance same_buffers_preorder `{RuntimeParts} : PreOrder same_buffers.
Proof.
  split; [by intros p|].
  intros p q r [Hq1 Hq2] [Hr1 Hr2]. split; congruence.
Qed.

(* ===================================================================== *)
(** * Reference instances

    A direct-form convolver and a runtime that accepts only the empty
    batch: small stand-ins for the external collaborators, on which the
    properties below are exercised. *)
(* ===================================================================== *)

Module Reference.

Record DirectForm : Type := { ir : list spec_float; history : list spec_float }.

Definition dot (ir history : list spec_float) : spec_float :=
  foldr (λ ab acc, SFadd 24 128 (SFmul 24 128 ab.1 ab.2) acc)
        Cpp.float_zero (zip ir history).

Fixpoint render (c : DirectForm) (input : list spec_float) (len : nat)
    : DirectForm * list spec_float :=
  match len, input with
  | S len, x :: input =>
      let h := x :: history c in
      let r := render {| ir := ir c; history := h |} input len in
      (r.1, dot (ir c) h :: r.2)
  | _, _ => (c, [])
  end.

#[export] Instance direct_form : TwoStageFFTConvolver := {|
  Convolver := DirectForm;
  conv_new := {| ir := []; history := [] |};
  conv_reset _ := {| ir := []; history := [] |};
  conv_init _ _ response _ := {| ir := response; history := [] |};
  conv_process c input output len :=
    let r := render c input len in (r.1, r.2 ++ drop (length r.2) output);
|}.

#[export] Instance bound : HandoffBound := 32%nat.

(** A runtime that registers no kind by itself. *)
Definition bare : RuntimeParts :=
  {| Graph := unit; new_graph := tt; coreNodeTypes := ∅ |}.

(** Entry points that accept the empty batch and refuse every
    instruction, and that leave the work buffers as they are. *)
Definition refusing `{RuntimeParts} : RuntimeEntryPoints :=
  {| applyInstructions batch :=
       match batch with
       | [] => mret tt
       | js.Array _ :: _ => throw (InvariantViolation "unknown instruction")
       | _ :: _ => throw bad_variant_access
       end;
     Runtime_process scratch _ _ _ _ _ userData := mret (scratch, userData) |}.

Definition one : spec_float := S754_finite false 8388608 (-23).
Definition half : spec_float := S754_finite false 8388608 (-24).

(** A node as the "convolve" factory makes it, two payloads built from two
    impulse responses, and two blocks that share their first channel. *)
Definition node : ConvolutionNode := ConvolutionNode_new 7 one 512.
Definition payload_a : shared_ptr Convolver := Some (built_from [one]).
Definition payload_b : shared_ptr Convolver := Some (built_from [half; half]).

Definition mono : BlockContext :=
  {| inputData := [[one; half; one]];
     outputData := [one; one; one; one];
     numInputChannels := 1; numSamples := 3 |}.

Definition stereo : BlockContext :=
  {| inputData := [[one; half; one]; [half; half; half]];
     outputData := [one; one; one; one];
     numInputChannels := 2; numSamples := 3 |}.

(** 44100 Hz as a [double]. *)
Definition fs : spec_float :=
  Eval vm_compute in binary_normalize 53 1024 44100 0 false.

(** A batch of one instruction, as the host passes it and as the engine
    reads it. *)
Definition batch : emscripten.val :=
  emscripten.array
    [emscripten.array [emscripten.text "create"; emscripten.text "sin"]].

Definition no_input : BlockContext :=
  {| inputData := [];
     outputData := [one; one; one; one];
     numInputChannels := 0; numSamples := 3 |}.

(** A host that knows ASCII and puts every other byte down as a question
    mark; on an ordinary object it lists the keys that are array indices
    first, by their number, and the others in the order they were set. It
    takes "__proto__" for no property: set to null or to a bare object it
    leaves a bare object, and set to anything else the object as it was
    (which prototype an ordinary object has is nothing that a tree
    records). *)
Fixpoint ascii_only (s : string) : string :=
  match s with
  | EmptyString => EmptyString
  | String c s =>
      String (if (Ascii.N_of_ascii c <? 128)%N then c else Ascii.ascii_of_N 63)
        (ascii_only s)
  end.

Fixpoint digits (acc : N) (s : string) : option N :=
  match s with
  | EmptyString => Some acc
  | String c s =>
      let n := Ascii.N_of_ascii c in
      if ((48 <=? n) && (n <=? 57))%N then digits (10 * acc + (n - 48))%N s
      else None
  end.

(** The array index that a key is the canonical numeral of, if any. *)
Definition array_index (key : string) : option N :=
  match key with
  | EmptyString => None
  | String c rest =>
      if (Ascii.N_of_ascii c =? 48)%N then
        match rest with EmptyString => Some 0%N | _ => None end
      else
        match digits 0 key with
        | Some n => if (n <? 2 ^ 32 - 1)%N then Some n else None
        | None => None
        end
  end.

(** Whether a new key goes before a key that is there. *)
Definition goes_before (key there : string) : bool :=
  match array_index key, array_index there with
  | Some n, Some m => (n <? m)%N
  | Some _, None => true
  | None, _ => false
  end.

Fixpoint place (key : string) (x : emscripten.val)
    (properties : list (string * emscripten.val)) : list (string * emscripten.val) :=
  match properties with
  | [] => [(key, x)]
  | (there, y) :: properties =>
      if bool_decide (there = key) then (key, x) :: properties
      else if goes_before key there then (key, x) :: (there, y) :: properties
      else (there, y) :: place key x properties
  end.

#[export] Instance embind : Embind := {|
  UTF8ToString := ascii_only;
  emval_set_property o key x :=
    match o with
    | emscripten.object properties =>
        if bool_decide (ascii_only key = "__proto__") then
          match x with
          | emscripten.null | emscripten.bare => emscripten.bare
          | _ => o
          end
        else emscripten.object (place (ascii_only key) x properties)
    | _ => o
    end;
|}.

(** A heap of the host: at 0 an object that holds a number, an array and
    a function; at 1 that array, which holds a number, a string and an
    object outside [Object.prototype]; and from 4 on arrays that hold the
    array at 4, which so holds itself. *)
Definition heap : host.heap := λ r,
  match r with
  | 0%nat =>
      host.Object true
        [("gain", host.number one); ("taps", host.reference 1);
         ("done", host.reference 2)]
  | 1%nat => host.Array [host.number half; host.text "hall"; host.reference 3]
  | 2%nat => host.Function
  | 3%nat => host.Object false [("gain", host.number one)]
  | _ => host.Array [host.reference 4]
  end.

(** A runtime that has two events for the host, and one whose event queue
    fails. *)
Definition emitting `{RuntimeParts} : RuntimeEvents :=
  {| Runtime_reset := mret tt;
     Runtime_processQueuedEvents :=
       mret [("meter", js.Object {[ "max" := js.Number one ]});
             ("scope", js.Float32Array [one; half])] |}.

Definition failing `{RuntimeParts} : RuntimeEvents :=
  {| Runtime_reset := mret tt;
     Runtime_processQueuedEvents := throw (InvariantViolation "event queue") |}.

(** A dynamic value with every kind in it. *)
Definition event : js.Value :=
  js.Array [js.String "meter";
            js.Object {[ "max" := js.Number one; "min" := js.Number half ]};
            js.Float32Array [one; half];
            js.Array [js.Null; js.Undefined; js.Boolean true]].

(** A block as [mono] with another first channel. *)
Definition mono_next : BlockContext :=
  {| inputData := [[half; half; one]];
     outputData := [one; one; one; one];
     numInputChannels := 1; numSamples := 3 |}.

End Reference.

(* ===================================================================== *)
(** * Properties of the convolution node *)
(* ===================================================================== *)

(** Runs the statements of a member function that the goal shows. *)
Ltac run_member :=
  cbv [mbind M_bind outcome_bind mret M_ret outcome_ret
       modify lift throw get gets try_catch invariant undefined_behaviour];
  cbn [js.to_String js.isString js.isArray js.isFloat32Array js.getArray
       js.getFloat32Array js.to_Number fst snd].

Section ConvolutionNodeFacts.
Context `{TwoStageFFTConvolver}.
Implicit Types (n : ConvolutionNode) (ctx : BlockContext).
Implicit Types (p : shared_ptr Convolver) (ps : list (shared_ptr Convolver)).

(** The loop of [process], one turn at a time. *)
Lemma drain_step n :
  drain n =
  if (0 <? Queue.size (convolverQueue n))%nat then drain (pop_convolver n) else n.
Proof.
  funelim (drain n).
  - by rewrite Hmore.
  - by rewrite Hdone.
Qed.

(** The loop ends with the newest item of the queue in the convolver slot
    and nothing in the queue; on an empty queue it does nothing. *)
Lemma drain_last n :
  drain n = match last (Queue.items (convolverQueue n)) with
            | Some p => adopted p n
            | None => n
            end.
Proof.
  remember (Queue.items (convolverQueue n)) as l eqn:El.
  revert n El. induction l as [|x l IH]; intros n El.
  - rewrite drain_step. unfold Queue.size. by rewrite <- El.
  - rewrite drain_step. unfold Queue.size. rewrite <- El. simpl.
    assert (Queue.items (convolverQueue (pop_convolver n)) = l) as El'.
    { unfold pop_convolver, Queue.pop. by rewrite <- El. }
    rewrite (IH (pop_convolver n) (eq_sym El')).
    unfold pop_convolver, Queue.pop. rewrite <- El.
    destruct l as [|y l]; simpl.
    + done.
    + destruct (last (y :: l)) eqn:E; [done|]. by apply last_None in E.
Qed.

Lemma drain_empties n : Queue.items (convolverQueue (drain n)) = [].
Proof.
  rewrite drain_last.
  destruct (last (Queue.items (convolverQueue n))) eqn:E; [done|].
  by apply last_None in E.
Qed.

Lemma drain_idle n : Queue.items (convolverQueue n) = [] → drain n = n.
Proof. intros E. by rewrite drain_last, E. Qed.

(** Whatever a block renders, it leaves the queue empty. *)
Lemma process_empties ctx n n' out :
  process ctx n = Returns (n', out) → Queue.items (convolverQueue n') = [].
Proof.
  unfold process. pose proof (drain_empties n) as E.
  destruct (bool_decide _ || bool_decide _).
  - intros [= <- _]. done.
  - destruct (convolver (drain n)) as [co|]; [|done].
    destruct (inputData ctx !! 0%nat) as [input0|]; [|done].
    destruct (conv_process co input0 (outputData ctx) (numSamples ctx)).
    intros [= <- _]. done.
Qed.

(** A block renders from what the loop leaves: two nodes that drain to the
    same state render alike. *)
Lemma process_after_drain ctx n m : drain n = drain m → process ctx n = process ctx m.
Proof. unfold process. by intros ->. Qed.

Lemma enqueue_all_fields ps n :
  nodeId (enqueue_all ps n) = nodeId n ∧
  sampleRate (enqueue_all ps n) = sampleRate n ∧
  blockSize (enqueue_all ps n) = blockSize n ∧
  props (enqueue_all ps n) = props n ∧
  convolver (enqueue_all ps n) = convolver n ∧
  Queue.capacity (convolverQueue (enqueue_all ps n)) = Queue.capacity (convolverQueue n).
Proof.
  revert n. induction ps as [|p ps IH]; intros n; [done|].
  simpl. destruct (IH (set_convolverQueue (Queue.push p) n)) as (-> & -> & -> & -> & -> & ->).
  simpl. unfold Queue.push. by destruct (bool_decide _).
Qed.

(** While the bound is not reached every pushed payload is in the queue,
    behind the ones that were there. *)
Lemma enqueue_all_room ps n :
  (Queue.size (convolverQueue n) + length ps ≤ Queue.capacity (convolverQueue n))%nat →
  Queue.items (convolverQueue (enqueue_all ps n)) = Queue.items (convolverQueue n) ++ ps.
Proof.
  revert n. induction ps as [|p ps IH]; intros n Hroom; simpl.
  - by rewrite app_nil_r.
  - simpl in Hroom. rewrite IH.
    + simpl. unfold Queue.push. rewrite bool_decide_true by lia.
      simpl. by rewrite <- app_assoc.
    + simpl. unfold Queue.push. rewrite bool_decide_true by lia.
      unfold Queue.size in *. simpl. rewrite length_app. simpl. lia.
Qed.

(** At the bound a push changes nothing. *)
Lemma enqueue_all_full ps n :
  Queue.size (convolverQueue n) = Queue.capacity (convolverQueue n) →
  enqueue_all ps n = n.
Proof.
  intros Hfull. induction ps as [|p ps IH]; [done|].
  simpl. replace (set_convolverQueue (Queue.push p) n) with n; [done|].
  unfold set_convolverQueue, Queue.push.
  rewrite bool_decide_false by lia. by destruct n.
Qed.

Lemma adopted_enqueue_all p ps n : adopted p (enqueue_all ps n) = adopted p n.
Proof.
  unfold adopted, set_convolver, set_convolverQueue. simpl.
  by destruct (enqueue_all_fields ps n) as (-> & -> & -> & -> & _ & ->).
Qed.

(** C1 (as amended). Drain-to-latest handoff: when N ≥ 1 payloads are
    pushed into a node's handoff queue and the queue's bound leaves room for
    all of them, the next [process] call drains the queue completely and
    adopts exactly the last-pushed payload as the node's convolver; the
    other payloads (and whatever was queued before) are discarded, and the
    block is rendered as by a node that holds only that payload. *)
Theorem drain_to_latest n ps p ctx :
  last ps = Some p →
  (Queue.size (convolverQueue n) + length ps ≤ Queue.capacity (convolverQueue n))%nat →
  drain (enqueue_all ps n) = adopted p n ∧
  Queue.items (convolverQueue (adopted p n)) = [] ∧
  convolver (adopted p n) = p ∧
  process ctx (enqueue_all ps n) = process ctx (adopted p n).
Proof.
  intros Hlast Hroom.
  assert (drain (enqueue_all ps n) = adopted p n) as Hdrain.
  { rewrite drain_last, enqueue_all_room by done.
    destruct ps as [|p0 ps] using rev_ind; [done|].
    rewrite app_assoc, last_snoc. rewrite last_snoc in Hlast.
    injection Hlast as ->. apply adopted_enqueue_all. }
  repeat split; [done|].
  apply process_after_drain. rewrite Hdrain. symmetry. by apply drain_idle.
Qed.

(** Past the bound the last-pushed payload is lost: of as many payloads as
    the bound plus one more, pushed into an empty queue, the node adopts
    the last but one. *)
Lemma overflow_keeps_earlier n ps p q :
  Queue.items (convolverQueue n) = [] →
  length ps = Queue.capacity (convolverQueue n) →
  last ps = Some p →
  drain (enqueue_all (ps ++ [q]) n) = adopted p n.
Proof.
  intros Hempty Hlen Hlast.
  assert (Queue.size (convolverQueue n) + length ps
          ≤ Queue.capacity (convolverQueue n))%nat as Hroom.
  { unfold Queue.size. rewrite Hempty. simpl. lia. }
  unfold enqueue_all. rewrite foldl_app. fold (enqueue_all ps n).
  fold (enqueue_all [q] (enqueue_all ps n)).
  rewrite enqueue_all_full.
  - rewrite drain_last, enqueue_all_room, Hempty by done. simpl.
    rewrite Hlast. apply adopted_enqueue_all.
  - unfold Queue.size. rewrite enqueue_all_room, Hempty by done. simpl.
    by destruct (enqueue_all_fields ps n) as (_ & _ & _ & _ & _ & ->).
Qed.

(** The general form of the silence fallback: what counts is the
    convolver slot after the queue has been drained. *)
Lemma process_silence_drained n ctx :
  numInputChannels ctx = 0%nat ∨ convolver (drain n) = nullptr →
  process ctx n
  = Returns (drain n, Cpp.fill_n (outputData ctx) (numSamples ctx) Cpp.float_zero).
Proof.
  intros Hsilent. unfold process.
  assert (bool_decide (numInputChannels ctx = 0%nat)
          || bool_decide (convolver (drain n) = nullptr) = true) as ->; [|done].
  destruct Hsilent as [-> | ->]; [done | apply orb_true_r].
Qed.

(** C2. Silence fallback: for a block of any [numSamples], if the block has
    no input channel, or the node has no convolver because no configuration
    has completed yet (a null convolver and nothing queued), [process]
    returns, and the output buffer it leaves starts with exactly
    [numSamples] zeros, the cells behind them untouched. *)
Theorem process_silence n ctx :
  numInputChannels ctx = 0%nat ∨
  (convolver n = nullptr ∧ Queue.items (convolverQueue n) = []) →
  let out := replicate (numSamples ctx) Cpp.float_zero
             ++ drop (numSamples ctx) (outputData ctx) in
  process ctx n = Returns (drain n, out) ∧
  take (numSamples ctx) out = replicate (numSamples ctx) Cpp.float_zero ∧
  drop (numSamples ctx) out = drop (numSamples ctx) (outputData ctx).
Proof.
  intros Hsilent out. split; [|split].
  - apply process_silence_drained.
    destruct Hsilent as [? | [Hnull Hempty]]; [by left | right].
    by rewrite drain_idle.
  - unfold out. rewrite take_app_length'; [done | by rewrite length_replicate].
  - unfold out. rewrite drop_app_length'; [done | by rewrite length_replicate].
Qed.

(** C9. Mono convolution noninterference: two blocks that agree on
    [numSamples], on the output buffer and on input channel 0, and that
    both have at least one input channel, are rendered alike by the same
    node, whatever the other input channels hold: the same output and the
    same node state. *)
Theorem process_reads_first_channel n ctx1 ctx2 :
  numSamples ctx1 = numSamples ctx2 →
  outputData ctx1 = outputData ctx2 →
  inputData ctx1 !! 0%nat = inputData ctx2 !! 0%nat →
  (1 ≤ numInputChannels ctx1)%nat →
  (1 ≤ numInputChannels ctx2)%nat →
  process ctx1 n = process ctx2 n.
Proof.
  intros Hsamples Hout Hin H1 H2. unfold process.
  rewrite Hsamples, Hout, Hin.
  rewrite !(bool_decide_false (_ = 0%nat)) by lia. done.
Qed.

Lemma has_lookup (resources : gmap string (list spec_float)) path :
  SharedResourceMap.has resources path = bool_decide (is_Some (resources !! path)).
Proof. done. Qed.

Lemma setProperty_not_string val resources n :
  js.isString val = false →
  setProperty "path" val resources n = (Throws InvalidProperty, stored "path" val n).
Proof.
  intros Hval. unfold setProperty, GraphNode_setProperty.
  rewrite bool_decide_true by done. run_member. by rewrite Hval.
Qed.

Lemma setProperty_absent path resources n :
  resources !! path = None →
  setProperty "path" (js.String path) resources n
  = (Throws ResourceNotFound, stored "path" (js.String path) n).
Proof.
  intros Habsent. unfold setProperty, GraphNode_setProperty.
  rewrite bool_decide_true by done. run_member.
  rewrite has_lookup, Habsent, bool_decide_false by (by intros [? ?]). done.
Qed.

Lemma setProperty_present path ref resources n :
  resources !! path = Some ref →
  setProperty "path" (js.String path) resources n
  = (Returns tt,
     set_convolverQueue (Queue.push (Some (built_from ref)))
       (stored "path" (js.String path) n)).
Proof.
  intros Hpresent. unfold setProperty, GraphNode_setProperty.
  rewrite bool_decide_true by done. run_member.
  rewrite has_lookup, Hpresent, bool_decide_true by eauto.
  unfold SharedResourceMap.get. by rewrite Hpresent.
Qed.

(** C3 (as amended). A [setProperty] call for "path" whose value is a
    string naming no resource of the Shared Resource Map fails with
    ResourceNotFound and leaves the node's convolver and its handoff queue
    exactly as they were (no payload is enqueued); the property store,
    written by the base class before the validation, holds the new value
    under "path" and is otherwise as it was. *)
Theorem setProperty_missing_resource n path resources :
  resources !! path = None →
  ∃ n',
    setProperty "path" (js.String path) resources n = (Throws ResourceNotFound, n') ∧
    convolver n' = convolver n ∧
    convolverQueue n' = convolverQueue n ∧
    props n' = <["path" := js.String path]> (props n).
Proof.
  intros Habsent. exists (stored "path" (js.String path) n).
  by rewrite setProperty_absent.
Qed.

(** C5 (as amended). Validation of "path": a [setProperty] call for "path"
    fails with InvalidProperty when the value is not a string and with
    ResourceNotFound when it is a string naming no resource of the Shared
    Resource Map; when it names a resource the call returns, and a
    convolver newly built from that resource is the newest item of the
    handoff queue if the queue was below its bound, while at the bound the
    queue is as it was and nothing is enqueued. The property store holds
    the value in every case. *)
Theorem setProperty_path_validation n val resources :
  setProperty "path" val resources n =
  match val with
  | js.String path =>
      match resources !! path with
      | Some ref =>
          (Returns tt,
           if bool_decide (Queue.size (convolverQueue n)
                           < Queue.capacity (convolverQueue n))%nat
           then enqueued (Some (built_from ref)) (stored "path" val n)
           else stored "path" val n)
      | None => (Throws ResourceNotFound, stored "path" val n)
      end
  | _ => (Throws InvalidProperty, stored "path" val n)
  end.
Proof.
  destruct val as [| |b|d|path|xs|o|xs]; try by apply setProperty_not_string.
  destruct (resources !! path) as [ref|] eqn:Hpath.
  - rewrite (setProperty_present path ref) by done. f_equal.
    unfold enqueued, set_convolverQueue, Queue.push. simpl.
    by case_bool_decide.
  - by apply setProperty_absent.
Qed.

(** Below its bound the queue takes the pushed convolver as its newest
    item. *)
Lemma setProperty_enqueues path ref resources n :
  resources !! path = Some ref →
  (Queue.size (convolverQueue n) < Queue.capacity (convolverQueue n))%nat →
  Queue.items (convolverQueue (setProperty "path" (js.String path) resources n).2)
  = Queue.items (convolverQueue n) ++ [Some (built_from ref)].
Proof.
  intros Hpresent Hroom. rewrite (setProperty_present _ ref) by done.
  simpl. unfold Queue.push. by rewrite bool_decide_true.
Qed.

End ConvolutionNodeFacts.

(** ** The properties on the reference convolver *)

(** C1, witness: two payloads pushed into the empty queue of a new node. *)
Lemma drain_to_latest_witness :
  last [Reference.payload_a; Reference.payload_b] = Some Reference.payload_b ∧
  (Queue.size (convolverQueue Reference.node)
   + length [Reference.payload_a; Reference.payload_b]
   ≤ Queue.capacity (convolverQueue Reference.node))%nat ∧
  convolver (drain (enqueue_all [Reference.payload_a; Reference.payload_b]
                      Reference.node))
  = Reference.payload_b.
Proof.
  assert (last [Reference.payload_a; Reference.payload_b]
          = Some Reference.payload_b) as Hlast by reflexivity.
  assert (Queue.size (convolverQueue Reference.node)
          + length [Reference.payload_a; Reference.payload_b]
          ≤ Queue.capacity (convolverQueue Reference.node))%nat as Hroom
    by (vm_compute; lia).
  split; [exact Hlast | split; [exact Hroom |]].
  destruct (drain_to_latest Reference.node _ _ Reference.mono Hlast Hroom)
    as (-> & _ & Hp & _).
  exact Hp.
Defined.

(** C1, counterexample to the claim as stated (every N): a new node with
    an empty queue of bound 32 gets 33 payloads, 32 times [payload_a] and
    then [payload_b]; the next drain adopts [payload_a], not the
    last-pushed [payload_b]. *)
Lemma drain_to_latest_overflow :
  let ps := replicate 32 Reference.payload_a ++ [Reference.payload_b] in
  Queue.items (convolverQueue Reference.node) = [] ∧
  last ps = Some Reference.payload_b ∧
  convolver (drain (enqueue_all ps Reference.node)) = Reference.payload_a ∧
  Reference.payload_a ≠ Reference.payload_b.
Proof.
  cbv zeta. split; [reflexivity | split; [reflexivity | split]].
  - rewrite (overflow_keeps_earlier Reference.node
               (replicate 32 Reference.payload_a)
               Reference.payload_a Reference.payload_b); reflexivity.
  - discriminate.
Qed.

(** C2, witness: a node that was never configured renders a block that
    has an input channel. *)
Lemma process_silence_witness :
  (numInputChannels Reference.mono = 0%nat ∨
   (convolver Reference.node = nullptr
    ∧ Queue.items (convolverQueue Reference.node) = [])) ∧
  process Reference.mono Reference.node
  = Returns (Reference.node,
             [Cpp.float_zero; Cpp.float_zero; Cpp.float_zero; Reference.one]).
Proof.
  assert (numInputChannels Reference.mono = 0%nat ∨
          (convolver Reference.node = nullptr
           ∧ Queue.items (convolverQueue Reference.node) = [])) as Hsilent
    by (right; split; reflexivity).
  split; [exact Hsilent|].
  destruct (process_silence Reference.node Reference.mono Hsilent) as [-> _].
  reflexivity.
Defined.

(** C9, witness: a mono and a stereo block with the same first channel,
    rendered by a node that has a payload to adopt. *)
Lemma process_reads_first_channel_witness :
  numSamples Reference.mono = numSamples Reference.stereo ∧
  outputData Reference.mono = outputData Reference.stereo ∧
  inputData Reference.mono !! 0%nat = inputData Reference.stereo !! 0%nat ∧
  (1 ≤ numInputChannels Reference.mono)%nat ∧
  (1 ≤ numInputChannels Reference.stereo)%nat ∧
  process Reference.mono (enqueue_all [Reference.payload_b] Reference.node)
  = process Reference.stereo (enqueue_all [Reference.payload_b] Reference.node).
Proof.
  assert (1 ≤ numInputChannels Reference.mono)%nat as H1 by (cbn; lia).
  assert (1 ≤ numInputChannels Reference.stereo)%nat as H2 by (cbn; lia).
  do 3 (split; [reflexivity|]). split; [exact H1|]. split; [exact H2|].
  exact (process_reads_first_channel
           (enqueue_all [Reference.payload_b] Reference.node)
           Reference.mono Reference.stereo eq_refl eq_refl eq_refl H1 H2).
Defined.

(** C3, witness: the path "/ir/hall.wav" with an empty resource map. *)
Lemma setProperty_missing_resource_witness :
  (∅ : gmap string (list spec_float)) !! "/ir/hall.wav" = None ∧
  ∃ n',
    setProperty "path" (js.String "/ir/hall.wav") ∅ Reference.node
    = (Throws ResourceNotFound, n') ∧
    convolver n' = convolver Reference.node ∧
    convolverQueue n' = convolverQueue Reference.node ∧
    props n' = <["path" := js.String "/ir/hall.wav"]> (props Reference.node).
Proof.
  split; [apply lookup_empty|].
  exact (setProperty_missing_resource Reference.node "/ir/hall.wav" ∅
           (lookup_empty _)).
Defined.

(** C3, counterexample to the claim as stated (the whole state kept): the
    failed call has written the property store. *)
Lemma setProperty_missing_resource_stores :
  let r := setProperty "path" (js.String "/ir/hall.wav") ∅ Reference.node in
  r.1 = Throws ResourceNotFound ∧
  props Reference.node !! "path" = None ∧
  props r.2 !! "path" = Some (js.String "/ir/hall.wav") ∧
  r.2 ≠ Reference.node.
Proof.
  intros r. unfold r. rewrite setProperty_absent by apply lookup_empty.
  split; [done|]. split; [apply lookup_empty|].
  assert (props (stored "path" (js.String "/ir/hall.wav") Reference.node) !! "path"
          = Some (js.String "/ir/hall.wav")) as Hstored
    by apply lookup_insert_eq.
  split; [exact Hstored|].
  simpl. intros Heq. rewrite Heq in Hstored.
  change (props Reference.node) with (∅ : gmap string js.Value) in Hstored.
  by rewrite lookup_empty in Hstored.
Qed.

(** C5, counterexample to the claim as stated (a present resource is
    always enqueued): a node whose queue of bound 32 holds 32 payloads is
    pointed at a resource that is there; the call returns, the queue holds
    what it held, and the convolver built from the resource is not in
    it. *)
Lemma setProperty_at_the_bound :
  let resources : gmap string (list spec_float) :=
    {[ "/ir/hall.wav" := [Reference.half; Reference.half] ]} in
  let n := enqueue_all (replicate 32 Reference.payload_a) Reference.node in
  let r := setProperty "path" (js.String "/ir/hall.wav") resources n in
  resources !! "/ir/hall.wav" = Some [Reference.half; Reference.half] ∧
  r.1 = Returns tt ∧
  Queue.items (convolverQueue r.2) = replicate 32 Reference.payload_a ∧
  Some (built_from [Reference.half; Reference.half])
    ∉ Queue.items (convolverQueue r.2).
Proof.
  cbv zeta.
  assert (({[ "/ir/hall.wav" := [Reference.half; Reference.half] ]}
           : gmap string (list spec_float)) !! "/ir/hall.wav"
          = Some [Reference.half; Reference.half]) as Hpath
    by apply lookup_singleton_eq.
  split; [exact Hpath|].
  rewrite (setProperty_present "/ir/hall.wav" [Reference.half; Reference.half])
    by exact Hpath.
  cbn [fst snd]. split; [reflexivity|].
  assert (Queue.items
            (convolverQueue
               (set_convolverQueue
                  (Queue.push (Some (built_from [Reference.half; Reference.half])))
                  (stored "path" (js.String "/ir/hall.wav")
                     (enqueue_all (replicate 32 Reference.payload_a)
                        Reference.node))))
          = replicate 32 Reference.payload_a) as -> by reflexivity.
  split; [reflexivity|].
  intros Hin. apply elem_of_replicate in Hin as [Heq _]. discriminate Heq.
Qed.

(* ===================================================================== *)
(** * Properties of the conversion of host values *)
(* ===================================================================== *)




(** Entries inserted one after the other, none over an entry that is
    there: under a key the map holds what it held, or else what the first
    of the entries with that key brings. *)
Lemma foldl_insert_new entries (ret : gmap string js.Value) :
  foldl (λ ret e, map_insert_new e.1 e.2 ret) ret entries
  = ret ∪ list_to_map entries.
Proof.
  revert ret. induction entries as [|[k y] entries IH]; intros ret; simpl.
  - by rewrite (right_id_L ∅ (∪)).
  - rewrite IH. apply map_eq. intros j. unfold map_insert_new.
    rewrite !lookup_union. destruct (decide (k = j)) as [->|Hne].
    + rewrite lookup_insert_eq. destruct (ret !! j) eqn:Hj; rewrite ?Hj.
      * by destruct (list_to_map entries !! j).
      * rewrite lookup_insert_eq. by destruct (list_to_map entries !! j).
    + rewrite lookup_insert_ne by done.
      destruct (ret !! k) eqn:Hk; [done|]. by rewrite lookup_insert_ne.
Qed.


(** An array of fewer than 2^31 elements is read whole. *)
Lemma array_read_whole {A} (xs : list A) :
  Z.of_nat (length xs) < 2 ^ 31 →
  take (Z.to_nat (Cpp.to_int (Z.of_nat (length xs)))) xs = xs.
Proof.
  intros Hlen. apply take_ge.
  unfold Cpp.to_int, Cpp.wrap_signed.
  rewrite Z.mod_small by lia. lia.
Qed.


(** ** Host values by reference *)









(** ** The conversion on the reference heap *)



(* ===================================================================== *)
(** * Properties of the processor *)
(* ===================================================================== *)

(** [arrayToFloatVector]'s loop returns the narrowed elements of an array
    of Numbers and throws at the first element that is none. *)
Lemma mapM_to_float ar :
  mapM (λ x, d ← js.to_Number x ; mret (Cpp.to_float d)) ar
  = match buffer_floats (js.Array ar) with
    | Some floats => Returns floats
    | None => Throws bad_variant_access
    end.
Proof.
  simpl. induction ar as [|x ar IH]; [done|].
  simpl. destruct x; simpl; try done.
  rewrite IH. by destruct (mapM (M := option) _ ar).
Qed.

Section ProcessorFacts.
Context `{RuntimeEntryPoints, HandoffBound}.
Implicit Types (p : Main.ElementaryAudioProcessor) (h : Main.Host).

(** ** [postMessageBatch] *)


(** On a prepared processor an array payload reaches the runtime once; an
    exception of the runtime ends in the callback. *)
Lemma postMessageBatch_applied p payload errorCallback batch rt :
  emValToValue payload = Returns (js.Array batch) →
  Main.runtime p = Some rt →
  Main.run (Main.postMessageBatch payload errorCallback) p
  = match applyInstructions batch rt with
    | (Throws e, rt') =>
        (Returns tt,
         {| Main.this := Main.set_runtime (Some rt') p;
            Main.events :=
              [Main.applyInstructions_called batch;
               Main.Called errorCallback
                 [emscripten.text "error"; emscripten.text (batch_error_message e)]] |})
    | (r, rt') =>
        (r,
         {| Main.this := Main.set_runtime (Some rt') p;
            Main.events := [Main.applyInstructions_called batch] |})
    end.
Proof.
  intros Hv Hrt. unfold Main.run, Main.postMessageBatch.
  rewrite Hv. run_member. unfold Main.runtime_call. simpl. rewrite Hrt.
  destruct (applyInstructions batch rt) as [[[]|e|] rt']; try done.
  by destruct e.
Qed.

(** Before [prepare] there is no runtime to apply a batch to. *)
Lemma postMessageBatch_unprepared p payload errorCallback batch :
  emValToValue payload = Returns (js.Array batch) →
  Main.runtime p = None →
  Main.run (Main.postMessageBatch payload errorCallback) p
  = (Undefined, {| Main.this := p; Main.events := [] |}).
Proof.
  intros Hv Hrt. unfold Main.run, Main.postMessageBatch.
  rewrite Hv. run_member. unfold Main.runtime_call. simpl. by rewrite Hrt.
Qed.


(** ** [updateSharedResourceMap] *)




Lemma updateSharedResourceMap_put p path buffer errorCallback name bv floats rt :
  emValToValue path = Returns (js.String name) →
  emValToValue buffer = Returns bv →
  buffer_floats bv = Some floats →
  Main.runtime p = Some rt →
  Main.run (Main.updateSharedResourceMap path buffer errorCallback) p
  = (Returns tt,
     {| Main.this := Main.set_runtime (Some (with_resource name floats rt)) p;
        Main.events := [] |}).
Proof.
  intros Hp Hb Hfloats Hrt. unfold Main.run, Main.updateSharedResourceMap.
  rewrite Hp, Hb. run_member.
  destruct bv as [| | | | |ar| |xs]; try discriminate Hfloats.
  - run_member. unfold Main.arrayToFloatVector.
    rewrite mapM_to_float, Hfloats. run_member.
    unfold Main.on_runtime, Main.runtime_call, Runtime_updateSharedResourceMap.
    simpl. rewrite Hrt. run_member. by rewrite firstn_all.
  - injection Hfloats as ->. run_member.
    unfold Main.on_runtime, Main.runtime_call, Runtime_updateSharedResourceMap.
    simpl. rewrite Hrt. run_member. by rewrite firstn_all.
Qed.


(** ** [prepare] and [process] *)

Lemma for_loop_buffers (b : list spec_float) count i h :
  Main.for_loop i count
    (λ _, Main.update (Main.set_scratchBuffers (λ bufs, bufs ++ [b]))) h
  = (Returns tt,
     {| Main.this :=
          Main.set_scratchBuffers (λ bufs, bufs ++ replicate count b) (Main.this h);
        Main.events := Main.events h |}).
Proof.
  revert i h. induction count as [|count IH]; intros i h; simpl.
  - destruct h as [[] ?]. unfold Main.set_scratchBuffers. simpl.
    by rewrite app_nil_r.
  - run_member. unfold Main.update at 1. run_member. rewrite IH.
    destruct h as [[] ?]. unfold Main.set_scratchBuffers. simpl.
    by rewrite <- app_assoc.
Qed.

(** The second loop finds a buffer behind every index it takes the
    address of. *)
Lemma for_loop_pointers count i h :
  (i + count ≤ length (Main.scratchBuffers (Main.this h)))%nat →
  Main.for_loop i count
    (λ i, buffers ← Main.member Main.scratchBuffers ;
          match buffers !! i with
          | Some _ => Main.update (Main.set_scratchPointers (λ ptrs, ptrs ++ [i]))
          | None => undefined_behaviour
          end) h
  = (Returns tt,
     {| Main.this :=
          Main.set_scratchPointers (λ ptrs, ptrs ++ seq i count) (Main.this h);
        Main.events := Main.events h |}).
Proof.
  revert i h. induction count as [|count IH]; intros i h Hlen; simpl.
  - destruct h as [[] ?]. unfold Main.set_scratchPointers. simpl.
    by rewrite app_nil_r.
  - run_member. unfold Main.member at 1. run_member.
    destruct (lookup_lt_is_Some_2 (Main.scratchBuffers (Main.this h)) i) as [b Hb];
      [lia|].
    rewrite Hb. unfold Main.update at 1. run_member. rewrite IH.
    + destruct h as [[] ?]. unfold Main.set_scratchPointers. simpl.
      by rewrite <- app_assoc.
    + simpl. destruct h as [[] ?]. simpl in *. lia.
Qed.

(** [prepare] always returns, and what it leaves is [prepared]. *)
Lemma prepare_run p sampleRate maxBlockSize :
  Main.run (Main.prepare sampleRate maxBlockSize) p
  = (Returns tt,
     {| Main.this := prepared sampleRate maxBlockSize p; Main.events := [] |}).
Proof.
  unfold Main.run, Main.prepare.
  unfold Main.update at 1 2. unfold Main.member at 1 2. run_member. simpl.
  rewrite for_loop_buffers. simpl.
  rewrite for_loop_pointers; [|simpl; rewrite length_replicate; lia].
  simpl. unfold Main.update, Main.on_runtime, Main.runtime_call, registerNodeType.
  run_member. simpl.
  by destruct p.
Qed.

(** A new processor starts at sample time zero. *)
Lemma new_sampleTime numIns numOuts : Main.sampleTime (Main.new numIns numOuts) = 0.
Proof. done. Qed.

(** A block hands the runtime the sample time that the processor holds. *)
Lemma process_events p numSamples rt :
  Main.runtime p = Some rt →
  Main.events (Main.run (Main.process numSamples) p).2
  = [Main.process_called (Cpp.to_int numSamples) (Main.sampleTime p)].
Proof.
  intros Hrt. unfold Main.run, Main.process.
  unfold Main.member. run_member. unfold Main.runtime_call. simpl. rewrite Hrt.
  destruct (Runtime_process _ _ _ _ _ _ _ rt) as [[[bufs t]|e|] rt']; try done.
Qed.

(** A block that the runtime renders advances the sample time by its
    length. *)
Lemma process_sampleTime p numSamples rt bufs t rt' :
  Main.runtime p = Some rt →
  Runtime_process (Main.scratchBuffers p) (Main.scratchPointers p)
    (Main.numInputChannels p)
    (drop (Z.to_nat (Main.numInputChannels p)) (Main.scratchPointers p))
    (Main.numOutputChannels p) (Cpp.to_int numSamples) (Main.sampleTime p) rt
  = (Returns (bufs, t), rt') →
  Main.sampleTime (Main.this (Main.run (Main.process numSamples) p).2)
  = Cpp.to_int64 (t + Cpp.to_int numSamples).
Proof.
  intros Hrt Hprocess. unfold Main.run, Main.process.
  unfold Main.member. run_member. unfold Main.runtime_call. simpl.
  rewrite Hrt, Hprocess. done.
Qed.

(** C4 (as amended). [prepare(sampleRate, maxBlockSize)] returns and leaves
    the sample-time counter as it found it: the first [process] call after
    it hands the runtime the sample time that the processor held before
    [prepare] (zero when no block was processed since construction).
    [prepare] allocates anew one scratch buffer per input and output
    channel, each of [maxBlockSize] zeros. *)
Theorem prepare_keeps_sampleTime p sampleRate maxBlockSize :
  ∃ p',
    Main.run (Main.prepare sampleRate maxBlockSize) p
    = (Returns tt, {| Main.this := p'; Main.events := [] |}) ∧
    Main.sampleTime p' = Main.sampleTime p ∧
    Main.scratchBuffers p'
    = replicate (scratch_count p)
        (replicate (Z.to_nat (Cpp.to_unsigned maxBlockSize)) Cpp.float_zero) ∧
    ∀ numSamples,
      Main.events (Main.run (Main.process numSamples) p').2
      = [Main.process_called (Cpp.to_int numSamples) (Main.sampleTime p)].
Proof.
  exists (prepared sampleRate maxBlockSize p).
  split; [apply prepare_run|]. split; [done|]. split; [done|].
  intros numSamples. by erewrite process_events.
Qed.

Lemma extended_lookup (registry : gmap string NodeFactoryFn) kind :
  extended registry !! kind
  = if bool_decide (kind = "convolve") then
      Some (λ id fs bs, ConvolutionNode_ (ConvolutionNode_new id fs bs))
    else if bool_decide (kind = "fft") then Some (λ id fs bs, FFTNode id fs bs)
    else if bool_decide (kind = "metro") then Some (λ id fs bs, MetronomeNode id fs bs)
    else if bool_decide (kind = "time") then Some (λ id fs bs, SampleTimeNode id fs bs)
    else registry !! kind.
Proof.
  unfold extended.
  repeat case_bool_decide; subst;
    repeat (first [rewrite lookup_insert_eq | rewrite lookup_insert_ne by done]);
    done.
Qed.



End ProcessorFacts.

(** ** The properties on the reference runtimes *)

Section OnBareRuntime.
#[local] Existing Instance Reference.direct_form.
#[local] Existing Instance Reference.bound.
#[local] Existing Instance Reference.bare.
#[local] Existing Instance Reference.refusing.

(** C4, counterexample to the claim as stated (the counter back at zero):
    a stereo-out processor is prepared, renders one block of 128 samples
    and is prepared again; the counter stands at 128 after the second
    [prepare], and that is the sample time the next block is given. *)
Lemma prepare_after_a_block :
  let p1 := Main.this (Main.run (Main.prepare Reference.fs 128) (Main.new 0 2)).2 in
  let p2 := Main.this (Main.run (Main.process 128) p1).2 in
  let p3 := Main.this (Main.run (Main.prepare Reference.fs 128) p2).2 in
  Main.sampleTime p2 = 128 ∧
  Main.sampleTime p3 = 128 ∧
  Main.events (Main.run (Main.process 128) p3).2 = [Main.process_called 128 128].
Proof. vm_compute. done. Qed.


End OnBareRuntime.


(* ===================================================================== *)
(** * Further properties of the convolution node *)
(* ===================================================================== *)

Section MoreConvolutionNodeFacts.
Context `{TwoStageFFTConvolver}.
Implicit Types (n : ConvolutionNode) (ctx : BlockContext).
Implicit Types (p : shared_ptr Convolver) (ps : list (shared_ptr Convolver)).

(** X1. A [setProperty] call for a key other than "path" returns, whatever
    the value and the Shared Resource Map are: it writes the value to the
    property store under that key and leaves the convolver and the handoff
    queue as they were. *)
Theorem setProperty_other_key key val resources n :
  key ≠ "path" →
  setProperty key val resources n = (Returns tt, stored key val n).
Proof.
  intros Hkey. unfold setProperty, GraphNode_setProperty.
  rewrite bool_decide_false by done. by run_member.
Qed.

Lemma drain_fields n :
  nodeId (drain n) = nodeId n ∧ sampleRate (drain n) = sampleRate n ∧
  blockSize (drain n) = blockSize n ∧ props (drain n) = props n ∧
  Queue.capacity (convolverQueue (drain n)) = Queue.capacity (convolverQueue n).
Proof. rewrite drain_last. by destruct (last _). Qed.

(** X2. A block that returns leaves the handoff queue empty, so that the
    loop of a next block with nothing new queued changes nothing; it keeps
    the node's id, sample rate, block size and property store and the
    bound of the queue: all that a block can change is the convolver. *)
Theorem process_frame ctx n n' out :
  process ctx n = Returns (n', out) →
  Queue.items (convolverQueue n') = [] ∧ drain n' = n' ∧
  nodeId n' = nodeId n ∧ sampleRate n' = sampleRate n ∧
  blockSize n' = blockSize n ∧ props n' = props n ∧
  Queue.capacity (convolverQueue n') = Queue.capacity (convolverQueue n).
Proof.
  intros Hprocess. apply process_empties in Hprocess as Hempty.
  split; [done|]. split; [by apply drain_idle|].
  revert Hprocess. unfold process. pose proof (drain_fields n) as Hfields.
  destruct (bool_decide _ || bool_decide _).
  - by intros [= <- _].
  - destruct (convolver (drain n)) as [co|]; [|done].
    destruct (inputData ctx !! 0%nat) as [input0|]; [|done].
    destruct (conv_process co input0 (outputData ctx) (numSamples ctx)).
    by intros [= <- _].
Qed.

Lemma push_capacity {T} (el : T) q :
  Queue.capacity (Queue.push el q) = Queue.capacity q.
Proof. unfold Queue.push. by destruct (bool_decide _). Qed.

Lemma push_items_room {T} (el : T) q :
  (Queue.size q < Queue.capacity q)%nat →
  Queue.items (Queue.push el q) = Queue.items q ++ [el].
Proof. intros Hroom. unfold Queue.push. by rewrite bool_decide_true. Qed.

Lemma adopted_push p el n :
  adopted p (set_convolverQueue (Queue.push el) n) = adopted p n.
Proof.
  unfold adopted, set_convolver, set_convolverQueue. simpl.
  by rewrite push_capacity.
Qed.

(** With a convolver in the slot after the loop and an input channel, a
    block is what the convolver renders from channel 0. *)
Lemma process_renders ctx n co input0 :
  convolver (drain n) = Some co →
  (1 ≤ numInputChannels ctx)%nat →
  inputData ctx !! 0%nat = Some input0 →
  process ctx n
  = let r := conv_process co input0 (outputData ctx) (numSamples ctx) in
    Returns (set_convolver (Some r.1) (drain n), r.2).
Proof.
  intros Hco Hch Hin. unfold process.
  rewrite bool_decide_false by lia. rewrite Hco, Hin. simpl.
  by destruct (conv_process _ _ _ _).
Qed.

(** X3. Configuration reaches the next block: after [setProperty("path",
    path, resources)] with a resource at [path] and room in the queue, the
    next block with an input channel is rendered from channel 0 by the
    convolver built from that resource (reset, then init(512, 4096,
    resource)), whatever convolver the node had before; the node is left
    with the rendered convolver, an empty queue and the path in its
    property store. *)
Theorem configure_then_render path ref resources n ctx input0 :
  resources !! path = Some ref →
  (Queue.size (convolverQueue n) < Queue.capacity (convolverQueue n))%nat →
  (1 ≤ numInputChannels ctx)%nat →
  inputData ctx !! 0%nat = Some input0 →
  let configured := (setProperty "path" (js.String path) resources n).2 in
  let r := conv_process (built_from ref) input0 (outputData ctx) (numSamples ctx) in
  process ctx configured
  = Returns (adopted (Some r.1) (stored "path" (js.String path) n), r.2).
Proof.
  intros Hpath Hroom Hch Hin configured r.
  assert (drain configured
          = adopted (Some (built_from ref)) (stored "path" (js.String path) n))
    as Hdrain.
  { unfold configured. rewrite (setProperty_present _ ref) by done. simpl.
    rewrite drain_last. simpl. rewrite push_items_room by done.
    rewrite last_snoc. apply adopted_push. }
  rewrite (process_renders _ _ (built_from ref) input0); [|by rewrite Hdrain|done..].
  by rewrite Hdrain.
Qed.

(** X4. Of two configurations between two blocks the second wins: after
    two [setProperty("path", ...)] calls that both find their resource,
    with room for two in the queue, the loop of the next block adopts the
    convolver built from the second resource, the one built from the first
    is never used, and the block is rendered as by a node that only got
    the second. *)
Theorem reconfigure_last_wins path1 ref1 path2 ref2 resources n ctx :
  resources !! path1 = Some ref1 →
  resources !! path2 = Some ref2 →
  (Queue.size (convolverQueue n) + 2 ≤ Queue.capacity (convolverQueue n))%nat →
  let once := (setProperty "path" (js.String path1) resources n).2 in
  let twice := (setProperty "path" (js.String path2) resources once).2 in
  drain twice = adopted (Some (built_from ref2)) (stored "path" (js.String path2) n) ∧
  process ctx twice
  = process ctx (setProperty "path" (js.String path2) resources n).2.
Proof.
  intros Hpath1 Hpath2 Hroom once twice.
  assert (drain twice
          = adopted (Some (built_from ref2)) (stored "path" (js.String path2) n))
    as Hdrain.
  { unfold twice, once.
    rewrite (setProperty_present path1 ref1) by done.
    rewrite (setProperty_present path2 ref2) by done.
    simpl. rewrite drain_last. simpl.
    set (q := convolverQueue n) in *.
    set (a := Some (built_from ref1)). set (b := Some (built_from ref2)).
    assert (Queue.items (Queue.push a q) = Queue.items q ++ [a]) as Ha
      by (apply push_items_room; lia).
    assert (Queue.items (Queue.push b (Queue.push a q))
            = (Queue.items q ++ [a]) ++ [b]) as ->.
    { rewrite push_items_room, Ha; [done|].
      unfold Queue.size in *. rewrite push_capacity, Ha, length_app. simpl. lia. }
    rewrite last_snoc, !adopted_push.
    unfold adopted, stored, set_convolver, set_convolverQueue, set_props. simpl.
    by rewrite insert_insert_eq, push_capacity. }
  split; [done|].
  apply process_after_drain. rewrite Hdrain.
  rewrite (setProperty_present path2 ref2) by done. simpl.
  rewrite drain_last. simpl. rewrite push_items_room by lia.
  rewrite last_snoc. symmetry. apply adopted_push.
Qed.

(** X5. A block without input channels still takes over what is queued:
    the loop runs before the channel count is looked at, so the block fills
    the output with [numSamples] zeros and leaves the node with the newest
    queued payload as its convolver and an empty queue. *)
Theorem silent_block_adopts ctx n p :
  numInputChannels ctx = 0%nat →
  last (Queue.items (convolverQueue n)) = Some p →
  process ctx n
  = Returns (adopted p n,
             Cpp.fill_n (outputData ctx) (numSamples ctx) Cpp.float_zero).
Proof.
  intros Hch Hlast. rewrite process_silence_drained by (by left).
  by rewrite drain_last, Hlast.
Qed.

(** X6. The convolver carries its state from block to block: when a block
    has returned and left a convolver, the next block with an input channel
    and nothing new queued is rendered by that very convolver, in the state
    the first block left it in, and nothing else of the node changes. *)
Theorem process_continues n ctx1 ctx2 n1 out1 co input :
  process ctx1 n = Returns (n1, out1) →
  convolver n1 = Some co →
  (1 ≤ numInputChannels ctx2)%nat →
  inputData ctx2 !! 0%nat = Some input →
  process ctx2 n1
  = let r := conv_process co input (outputData ctx2) (numSamples ctx2) in
    Returns (set_convolver (Some r.1) n1, r.2).
Proof.
  intros Hfirst Hco Hch Hin.
  apply process_empties in Hfirst as Hempty.
  rewrite (process_renders ctx2 n1 co input); rewrite ?drain_idle; done.
Qed.

End MoreConvolutionNodeFacts.

(** ** The further properties on the reference convolver *)

(** X1, witness: a "gain" property on a new node. *)
Lemma setProperty_other_key_witness :
  "gain" ≠ "path" ∧
  setProperty "gain" (js.Number Reference.one) ∅ Reference.node
  = (Returns tt, stored "gain" (js.Number Reference.one) Reference.node).
Proof.
  assert ("gain" ≠ "path") as Hkey by discriminate.
  split; [exact Hkey|].
  exact (setProperty_other_key "gain" (js.Number Reference.one) ∅
           Reference.node Hkey).
Defined.

(** X2, witness: a silent block of a node with two payloads queued. *)
Lemma process_frame_witness :
  let n := enqueue_all [Reference.payload_a; Reference.payload_b] Reference.node in
  process Reference.no_input n
  = Returns (adopted Reference.payload_b n,
             [Cpp.float_zero; Cpp.float_zero; Cpp.float_zero; Reference.one]) ∧
  Queue.items (convolverQueue (adopted Reference.payload_b n)) = [] ∧
  props (adopted Reference.payload_b n) = props n.
Proof.
  cbv zeta.
  assert (process Reference.no_input
            (enqueue_all [Reference.payload_a; Reference.payload_b] Reference.node)
          = Returns
              (adopted Reference.payload_b
                 (enqueue_all [Reference.payload_a; Reference.payload_b]
                    Reference.node),
               [Cpp.float_zero; Cpp.float_zero; Cpp.float_zero; Reference.one]))
    as Hprocess.
  { rewrite process_silence_drained by (left; reflexivity).
    rewrite drain_last. reflexivity. }
  split; [exact Hprocess|].
  destruct (process_frame _ _ _ _ Hprocess) as (Hq & _ & _ & _ & _ & Hp & _).
  split; [exact Hq | exact Hp].
Defined.

(** X3, witness: a new node is pointed at an impulse response of two
    taps and renders a mono block. *)
Lemma configure_then_render_witness :
  let resources : gmap string (list spec_float) :=
    {[ "/ir/hall.wav" := [Reference.half; Reference.half] ]} in
  resources !! "/ir/hall.wav" = Some [Reference.half; Reference.half] ∧
  (Queue.size (convolverQueue Reference.node)
   < Queue.capacity (convolverQueue Reference.node))%nat ∧
  (1 ≤ numInputChannels Reference.mono)%nat ∧
  inputData Reference.mono !! 0%nat = Some [Reference.one; Reference.half; Reference.one] ∧
  let r := conv_process (built_from [Reference.half; Reference.half])
             [Reference.one; Reference.half; Reference.one]
             (outputData Reference.mono) (numSamples Reference.mono) in
  process Reference.mono
    (setProperty "path" (js.String "/ir/hall.wav") resources Reference.node).2
  = Returns (adopted (Some r.1)
               (stored "path" (js.String "/ir/hall.wav") Reference.node), r.2).
Proof.
  cbv zeta.
  assert (({[ "/ir/hall.wav" := [Reference.half; Reference.half] ]}
           : gmap string (list spec_float)) !! "/ir/hall.wav"
          = Some [Reference.half; Reference.half]) as Hpath
    by apply lookup_singleton_eq.
  assert (Queue.size (convolverQueue Reference.node)
          < Queue.capacity (convolverQueue Reference.node))%nat as Hroom
    by (vm_compute; lia).
  assert (1 ≤ numInputChannels Reference.mono)%nat as Hch by (cbn; lia).
  assert (inputData Reference.mono !! 0%nat
          = Some [Reference.one; Reference.half; Reference.one]) as Hin
    by reflexivity.
  do 4 (split; [assumption|]).
  exact (configure_then_render _ _ _ Reference.node Reference.mono _
           Hpath Hroom Hch Hin).
Defined.

(** X4, witness: two impulse responses, one after the other, before a
    mono block. *)
Lemma reconfigure_last_wins_witness :
  let resources : gmap string (list spec_float) :=
    {[ "/ir/hall.wav" := [Reference.half; Reference.half];
       "/ir/room.wav" := [Reference.one] ]} in
  let once := (setProperty "path" (js.String "/ir/hall.wav") resources
                 Reference.node).2 in
  let twice := (setProperty "path" (js.String "/ir/room.wav") resources once).2 in
  resources !! "/ir/hall.wav" = Some [Reference.half; Reference.half] ∧
  resources !! "/ir/room.wav" = Some [Reference.one] ∧
  (Queue.size (convolverQueue Reference.node) + 2
   ≤ Queue.capacity (convolverQueue Reference.node))%nat ∧
  convolver (drain twice) = Some (built_from [Reference.one]).
Proof.
  cbv zeta.
  set (resources := ({[ "/ir/hall.wav" := [Reference.half; Reference.half];
                        "/ir/room.wav" := [Reference.one] ]}
                     : gmap string (list spec_float))).
  assert (resources !! "/ir/hall.wav" = Some [Reference.half; Reference.half])
    as Hpath1 by (vm_compute; reflexivity).
  assert (resources !! "/ir/room.wav" = Some [Reference.one])
    as Hpath2 by (vm_compute; reflexivity).
  assert (Queue.size (convolverQueue Reference.node) + 2
          ≤ Queue.capacity (convolverQueue Reference.node))%nat as Hroom
    by (vm_compute; lia).
  do 3 (split; [assumption|]).
  destruct (reconfigure_last_wins _ _ _ _ _ Reference.node Reference.mono
              Hpath1 Hpath2 Hroom) as [-> _].
  reflexivity.
Defined.

(** X5, witness: a block without input on a node with two payloads
    queued. *)
Lemma silent_block_adopts_witness :
  let n := enqueue_all [Reference.payload_a; Reference.payload_b] Reference.node in
  numInputChannels Reference.no_input = 0%nat ∧
  last (Queue.items (convolverQueue n)) = Some Reference.payload_b ∧
  process Reference.no_input n
  = Returns (adopted Reference.payload_b n,
             [Cpp.float_zero; Cpp.float_zero; Cpp.float_zero; Reference.one]).
Proof.
  cbv zeta. split; [reflexivity|]. split; [reflexivity|].
  exact (silent_block_adopts Reference.no_input
           (enqueue_all [Reference.payload_a; Reference.payload_b] Reference.node)
           Reference.payload_b eq_refl eq_refl).
Defined.

(** X6, witness: two mono blocks after one configuration; the second is
    rendered with the history of the first. *)
Lemma process_continues_witness :
  let n := enqueue_all [Reference.payload_b] Reference.node in
  let first := conv_process (built_from [Reference.half; Reference.half])
                 [Reference.one; Reference.half; Reference.one]
                 (outputData Reference.mono) 3 in
  let n1 := adopted (Some first.1) Reference.node in
  process Reference.mono n = Returns (n1, first.2) ∧
  convolver n1 = Some first.1 ∧
  (1 ≤ numInputChannels Reference.mono_next)%nat ∧
  inputData Reference.mono_next !! 0%nat = Some [Reference.half; Reference.half; Reference.one] ∧
  let r := conv_process first.1 [Reference.half; Reference.half; Reference.one]
             (outputData Reference.mono_next) (numSamples Reference.mono_next) in
  process Reference.mono_next n1 = Returns (set_convolver (Some r.1) n1, r.2).
Proof.
  cbv zeta.
  set (n := enqueue_all [Reference.payload_b] Reference.node).
  set (first := conv_process (built_from [Reference.half; Reference.half])
                  [Reference.one; Reference.half; Reference.one]
                  (outputData Reference.mono) 3).
  set (n1 := adopted (Some first.1) Reference.node).
  assert (process Reference.mono n = Returns (n1, first.2)) as Hfirst.
  { rewrite (process_renders Reference.mono n
               (built_from [Reference.half; Reference.half])
               [Reference.one; Reference.half; Reference.one]).
    - rewrite drain_last. reflexivity.
    - rewrite drain_last. reflexivity.
    - cbn. lia.
    - reflexivity. }
  assert (convolver n1 = Some first.1) as Hco by reflexivity.
  assert (1 ≤ numInputChannels Reference.mono_next)%nat as Hch by (cbn; lia).
  assert (inputData Reference.mono_next !! 0%nat
          = Some [Reference.half; Reference.half; Reference.one]) as Hin
    by reflexivity.
  do 4 (split; [assumption|]).
  exact (process_continues n Reference.mono Reference.mono_next n1 first.2
           first.1 _ Hfirst Hco Hch Hin).
Defined.

(* ===================================================================== *)
(** * Round trip of the conversions *)
(* ===================================================================== *)

Lemma iter_pos_nat {A} (f : A → A) (n : positive) (x : A) :
  SpecFloat.iter_pos f n x = Nat.iter (Pos.to_nat n) f x.
Proof.
  revert x. induction n as [n IH|n IH|]; intros x; cbn [SpecFloat.iter_pos].
  - rewrite !IH, Pos2Nat.inj_xI.
    replace (S (2 * Pos.to_nat n)) with (Pos.to_nat n + (Pos.to_nat n + 1))%nat by lia.
    rewrite !Nat.iter_add. simpl. done.
  - rewrite !IH, Pos2Nat.inj_xO.
    replace (2 * Pos.to_nat n)%nat with (Pos.to_nat n + Pos.to_nat n)%nat by lia.
    by rewrite Nat.iter_add.
  - done.
Qed.

Lemma pos_iter_nat {A} (f : A → A) (n : positive) (x : A) :
  Pos.iter f x n = Nat.iter (Pos.to_nat n) f x.
Proof. rewrite Pos2Nat.inj_iter. done. Qed.

Lemma digits2_pos_shift (k : nat) (m : positive) :
  Zpos (digits2_pos (Nat.iter k xO m)) = Zpos (digits2_pos m) + Z.of_nat k.
Proof.
  induction k as [|k IH]; simpl; [lia|]. rewrite Pos2Z.inj_succ, IH. lia.
Qed.

Lemma shr_shift (k : nat) (m : positive) :
  Nat.iter k shr_1 {| shr_m := Zpos (Nat.iter k xO m); shr_r := false; shr_s := false |}
  = {| shr_m := Zpos m; shr_r := false; shr_s := false |}.
Proof.
  induction k as [|k IH]; [done|].
  rewrite Nat.iter_succ_r. simpl. exact IH.
Qed.

Lemma to_double_finite s m e :
  bounded 24 128 m e = true →
  Cpp.to_double (S754_finite s m e)
  = S754_finite s (Nat.iter (Z.to_nat (53 - Zpos (digits2_pos m))) xO m)
      (e - (53 - Zpos (digits2_pos m))).
Proof.
  unfold bounded, canonical_mantissa, fexp, emin. intros Hb.
  apply andb_true_iff in Hb as [Hc He]. apply Z.eqb_eq in Hc. apply Z.leb_le in He.
  pose proof (Pos2Z.is_pos (digits2_pos m)) as HD.
  set (D := Zpos (digits2_pos m)) in *.
  unfold Cpp.to_double, binary_round.
  unfold fexp, emin. fold D.
  replace (Z.max (D + e - 53) (3 - 1024 - 53)) with (D + e - 53) by lia.
  unfold shl_align.
  destruct (D + e - 53 - e) as [|d|d] eqn:Hd; try lia.
  rewrite pos_iter_nat.
  replace (Pos.to_nat d) with (Z.to_nat (53 - D)) by lia.
  set (k := Z.to_nat (53 - D)).
  unfold binary_round_aux, shr_fexp, fexp, emin.
  simpl Zdigits2. rewrite digits2_pos_shift. fold D.
  replace (Z.max (D + Z.of_nat k + (D + e - 53) - 53) (3 - 1024 - 53) - (D + e - 53))
    with 0 by lia.
  simpl. rewrite digits2_pos_shift. fold D.
  replace (Z.max (D + Z.of_nat k + (D + e - 53) - 53) (3 - 1024 - 53) - (D + e - 53))
    with 0 by lia.
  simpl. rewrite (proj2 (Z.leb_le _ _)) by lia.
  f_equal. lia.
Qed.

(** A [float] widened to [double] and narrowed again is the same [float]:
    the widening is exact. *)
Lemma to_float_to_double x :
  valid_binary 24 128 x = true → Cpp.to_float (Cpp.to_double x) = x.
Proof.
  destruct x as [s|s| |s m e]; try done.
  intros Hb. simpl in Hb. rewrite to_double_finite by done.
  unfold bounded, canonical_mantissa, fexp, emin in Hb.
  apply andb_true_iff in Hb as [Hc He]. apply Z.eqb_eq in Hc. apply Z.leb_le in He.
  pose proof (Pos2Z.is_pos (digits2_pos m)) as HD.
  set (D := Zpos (digits2_pos m)) in *.
  set (k := Z.to_nat (53 - D)).
  unfold Cpp.to_float, binary_round, fexp, emin.
  rewrite digits2_pos_shift. fold D.
  replace (Z.max (D + Z.of_nat k + (e - (53 - D)) - 24) (3 - 128 - 24)) with e by lia.
  unfold shl_align.
  destruct (e - (e - (53 - D))) as [|d|d] eqn:Hd; try lia.
  unfold binary_round_aux, shr_fexp, fexp, emin.
  simpl Zdigits2. rewrite digits2_pos_shift. fold D.
  replace (Z.max (D + Z.of_nat k + (e - (53 - D)) - 24) (3 - 128 - 24) - (e - (53 - D)))
    with (Zpos d) by lia.
  simpl shr_record_of_loc. unfold shr.
  rewrite iter_pos_nat.
  replace (Pos.to_nat d) with k by lia.
  rewrite shr_shift. simpl.
  fold D.
  replace (Z.max (D + (e - (53 - D) + Zpos d) - 24) (3 - 128 - 24)
           - (e - (53 - D) + Zpos d)) with 0 by lia.
  simpl. rewrite (proj2 (Z.leb_le _ _)) by lia.
  f_equal. lia.
Qed.

Section RoundTrip.
Context `{Embind}.

(** Induction on a value that fits, with the property at hand for the
    elements of an array and the property values of an object. *)
Lemma fits_ind_nested (P : js.Value → Prop) :
  P js.Undefined → P js.Null → (∀ b, P (js.Boolean b)) →
  (∀ d, P (js.Number d)) → (∀ s, UTF8ToString s = s → P (js.String s)) →
  (∀ va, Z.of_nat (length va) < 2 ^ 31 → Forall P va → P (js.Array va)) →
  (∀ vo, Z.of_nat (size vo) < 2 ^ 32 →
         map_Forall (λ key x, key ≠ "__proto__" ∧ UTF8ToString key = key ∧ P x) vo →
         P (js.Object vo)) →
  (∀ va, Forall (λ x, valid_binary 24 128 x = true) va → P (js.Float32Array va)) →
  ∀ v, fits v → P v.
Proof.
  intros Hu Hn Hb Hd Hs Ha Ho Hf. fix IH 2.
  intros v [| |b|d|s Hkept|va Hlen Hva|vo Hsize Hvo|va Hva].
  - exact Hu.
  - exact Hn.
  - apply Hb.
  - apply Hd.
  - by apply Hs.
  - apply Ha; [exact Hlen|].
    clear Hlen.
    induction Hva as [|x va Hx _ IHva];
      [constructor | constructor; [exact (IH x Hx) | exact IHva]].
  - apply Ho; [exact Hsize|].
    intros k x Hk. destruct (Hvo k x Hk) as (Hproto & Hkept & Hx).
    split; [exact Hproto|]. split; [exact Hkept|]. exact (IH x Hx).
  - apply Hf, Hva.
Qed.

Lemma convert_elements_all conv len xs ys i ret :
  Forall2 (λ x y, conv x = Returns y) xs ys →
  i + Z.of_nat (length xs) ≤ len →
  convert_elements conv len i xs ret = Returns (js.Array (ret ++ ys)).
Proof.
  intros Hall. revert i ret.
  induction Hall as [|x y xs ys Hx _ IH]; intros i ret Hlen; simpl.
  - by rewrite app_nil_r.
  - simpl in Hlen. rewrite bool_decide_true by lia. rewrite Hx. simpl.
    rewrite IH by lia. by rewrite <- app_assoc.
Qed.

Lemma convert_properties_all conv numKeys keys entries i ret :
  Forall2 (λ p e, p.1 = e.1 ∧ conv p.2 = Returns e.2) keys entries →
  i + Z.of_nat (length keys) ≤ numKeys →
  convert_properties conv numKeys i keys ret
  = Returns (js.Object (foldl (λ ret e, map_insert_new e.1 e.2 ret) ret entries)).
Proof.
  intros Hall. revert i ret.
  induction Hall as [|[k x] [k' y] keys entries [Hk Hx] _ IH]; intros i ret Hlen; simpl.
  - done.
  - simpl in *. subst k'. rewrite bool_decide_true by lia. rewrite Hx. simpl.
    by rewrite IH by lia.
Qed.

(** Properties set one after the other on an object of a host that takes
    new properties as they are given: the object ends with what it had and
    with all of them. *)
Lemma set_all_own entries properties :
  sets_own_properties →
  NoDup (properties.*1 ++ entries.*1) →
  Forall (λ e, e.1 ≠ "__proto__" ∧ UTF8ToString e.1 = e.1) entries →
  ∃ properties',
    foldl (λ ret e, emval_set_property ret e.1 e.2)
      (emscripten.object properties) entries
    = emscripten.object properties' ∧
    properties' ≡ₚ properties ++ entries.
Proof.
  intros Hset. revert properties.
  induction entries as [|e entries IH]; intros properties Hfresh Hkeys; simpl.
  - exists properties. by rewrite app_nil_r.
  - apply Forall_cons in Hkeys as [[Hproto Hkept] Hkeys].
    destruct (Hset properties e.1 e.2 Hproto Hkept)
      as (properties1 & -> & Hproperties1).
    { simpl in Hfresh. apply NoDup_app in Hfresh as (_ & Hfresh & _).
      intros Hin. apply (Hfresh _ Hin). left. }
    destruct (IH properties1) as (properties' & -> & Hproperties'); [|done|].
    { rewrite Hproperties1, fmap_app, <- app_assoc. exact Hfresh. }
    exists properties'. split; [done|].
    rewrite Hproperties', Hproperties1, <- app_assoc. by destruct e.
Qed.

(** X7. A Float32Array goes to the host unchanged: [valueToEmVal] widens
    every element to [double] on the way into the host's array, which
    narrows it to [float] again, and for elements that are [float]s the
    host's array holds the very same elements, in order. *)
Theorem valueToEmVal_float32array va :
  Forall (λ x, valid_binary 24 128 x = true) va →
  valueToEmVal (js.Float32Array va) = emscripten.float32array va.
Proof.
  intros Hva. simpl. f_equal.
  induction Hva as [|x va Hx _ IHva]; simpl; [done|].
  by rewrite to_float_to_double, IHva.
Qed.

(** X8. Round trip through the host. On a host that takes new properties
    as they are given, a dynamic value handed to the host by
    [valueToEmVal] and read back by [emValToValue] is the same value,
    whenever it fits: its strings and keys are ones that the binding hands
    over unchanged, no key is "__proto__", arrays have fewer than 2^31
    elements and objects fewer than 2^32 keys, and the elements of
    Float32Arrays are [float]s. The reading returns, arrays keep their
    order, and objects their keys and values, in whatever order the host
    lists the keys. *)
Theorem emValToValue_valueToEmVal v :
  sets_own_properties → fits v → emValToValue (valueToEmVal v) = Returns v.
Proof.
  intros Hset. revert v. apply fits_ind_nested.
  - done.
  - done.
  - by intros [].
  - done.
  - intros s Hkept. simpl. by rewrite Hkept.
  - intros va Hlen IH. simpl. rewrite length_map.
    rewrite (convert_elements_all _ _ _ va).
    + done.
    + apply Forall2_fmap_l. by apply Forall_Forall2_diag.
    + rewrite length_map. unfold Cpp.to_int, Cpp.wrap_signed.
      rewrite Z.mod_small by lia. lia.
  - intros vo Hsize IH. cbn [valueToEmVal].
    set (sorted := merge_sort key_le (map_to_list (valueToEmVal <$> vo))).
    assert (sorted ≡ₚ prod_map id valueToEmVal <$> map_to_list vo) as Hsorted.
    { unfold sorted. by rewrite merge_sort_Permutation, map_to_list_fmap. }
    assert (∀ p, p ∈ sorted →
              ∃ x, vo !! p.1 = Some x ∧ p.2 = valueToEmVal x) as Hentry.
    { intros p Hp. rewrite Hsorted in Hp.
      apply list_elem_of_fmap in Hp as ([k x] & -> & Hkx).
      apply elem_of_map_to_list in Hkx. by exists x. }
    destruct (set_all_own sorted [] Hset) as (props & -> & Hperm).
    { simpl. unfold sorted.
      rewrite merge_sort_Permutation. apply NoDup_fst_map_to_list. }
    { apply Forall_forall. intros p Hp. destruct (Hentry p Hp) as (x & Hx & _).
      destruct (IH _ _ Hx) as (Hproto & Hkept & _). done. }
    simpl in Hperm. rewrite Hsorted in Hperm. cbn [emValToValue]. simpl.
    set (h := λ p : string * emscripten.val,
                (p.1, default js.Undefined (vo !! p.1))).
    assert (length props = size vo) as Hlength.
    { rewrite Hperm, length_fmap. apply length_map_to_list. }
    assert (∀ p, p ∈ props →
              ∃ x, vo !! p.1 = Some x ∧ p.2 = valueToEmVal x) as Hprops.
    { intros p Hp. rewrite Hperm in Hp.
      apply list_elem_of_fmap in Hp as ([k x] & -> & Hkx).
      apply elem_of_map_to_list in Hkx. by exists x. }
    rewrite (convert_properties_all _ _ _ (h <$> props)).
    + f_equal. f_equal. rewrite foldl_insert_new, (left_id_L ∅ (∪)).
      assert (h <$> props ≡ₚ map_to_list vo) as Hentries.
      { rewrite Hperm, <- list_fmap_compose.
        rewrite <- (list_fmap_id (map_to_list vo)) at 2.
        assert ((h ∘ prod_map id valueToEmVal) <$> map_to_list vo
                = id <$> map_to_list vo) as ->; [|done].
        apply Forall_fmap_ext, Forall_forall. intros [k x] Hkx.
        apply elem_of_map_to_list in Hkx. unfold h. simpl. by rewrite Hkx. }
      rewrite (list_to_map_proper (h <$> props) (map_to_list vo)).
      * apply list_to_map_to_list.
      * rewrite Hentries. apply NoDup_fst_map_to_list.
      * exact Hentries.
    + apply Forall2_fmap_r, Forall_Forall2_diag, Forall_forall.
      intros p Hp. destruct (Hprops p Hp) as (x & Hx & Hpx).
      split; [done|]. unfold h. simpl. rewrite Hx, Hpx. simpl.
      by destruct (IH p.1 x Hx) as (_ & _ & ->).
    + rewrite Hlength. unfold Cpp.to_size_t, Cpp.wrap_unsigned.
      rewrite Z.mod_small by lia. lia.
  - intros va Hva. simpl. f_equal. f_equal.
    induction Hva as [|x va Hx _ IHva]; simpl; [done|].
    by rewrite to_float_to_double, IHva.
Qed.

End RoundTrip.

(** ** The round trip on the reference host *)

(** A key that the object does not have is put in its place among the
    keys that are there. *)
Lemma place_fresh key x properties :
  key ∉ properties.*1 → Reference.place key x properties ≡ₚ properties ++ [(key, x)].
Proof.
  induction properties as [|[there y] properties IH]; intros Hfresh; simpl; [done|].
  simpl in Hfresh. apply not_elem_of_cons in Hfresh as [Hne Hfresh].
  rewrite bool_decide_false by done.
  destruct (Reference.goes_before key there).
  - apply (Permutation_cons_append ((there, y) :: properties)).
  - by rewrite IH.
Qed.

Section OnReferenceHost.
#[local] Existing Instance Reference.embind.

Lemma reference_sets_own_properties : sets_own_properties.
Proof.
  intros properties key x Hproto Hkept Hfresh. simpl in *.
  rewrite Hkept, bool_decide_false by done.
  exists (Reference.place key x properties). split; [done|].
  by apply place_fresh.
Qed.

(** X7, witness: two samples. *)
Lemma valueToEmVal_float32array_witness :
  Forall (λ x, valid_binary 24 128 x = true) [Reference.one; Reference.half] ∧
  valueToEmVal (js.Float32Array [Reference.one; Reference.half])
  = emscripten.float32array [Reference.one; Reference.half].
Proof.
  assert (Forall (λ x, valid_binary 24 128 x = true)
            [Reference.one; Reference.half]) as Hva
    by (repeat constructor).
  split; [exact Hva|].
  exact (valueToEmVal_float32array [Reference.one; Reference.half] Hva).
Defined.

Lemma fits_event : fits Reference.event.
Proof.
  unfold Reference.event.
  apply fits_array; [vm_compute; reflexivity|].
  repeat apply Forall_cons_2; try apply Forall_nil_2.
  - by constructor.
  - apply fits_object.
    + rewrite map_size_insert, map_size_singleton by done. vm_compute. reflexivity.
    + apply map_Forall_insert_2; [repeat split; (done || constructor)|].
      apply map_Forall_singleton. repeat split; (done || constructor).
  - apply fits_float32array. repeat constructor.
  - apply fits_array; [vm_compute; reflexivity|]. repeat constructor.
Qed.

(** X8, witness: an array with a string, an object, a Float32Array and an
    array in it, on the reference host. *)
Lemma emValToValue_valueToEmVal_witness :
  sets_own_properties ∧ fits Reference.event ∧
  emValToValue (valueToEmVal Reference.event) = Returns Reference.event.
Proof.
  split; [exact reference_sets_own_properties|].
  split; [exact fits_event|].
  exact (emValToValue_valueToEmVal Reference.event
           reference_sets_own_properties fits_event).
Defined.

End OnReferenceHost.

(* ===================================================================== *)
(** * Further properties of the processor *)
(* ===================================================================== *)

(** ** What a member function leaves alone *)

Section Keeps.
Context `{RuntimeEntryPoints, HandoffBound}.
Context (R : relation Main.ElementaryAudioProcessor) `{!PreOrder R}.
Implicit Types (p : Main.ElementaryAudioProcessor) (h : Main.Host).

Lemma keeps_ret {A} (a : A) : keeps R (mret a).
Proof. intros h. simpl. reflexivity. Qed.

Lemma keeps_bind {A B} (f : M Main.Host A) (k : A → M Main.Host B) :
  keeps R f → (∀ a, keeps R (k a)) → keeps R (f ≫= k).
Proof.
  intros Hf Hk h. unfold mbind, M_bind. specialize (Hf h).
  destruct (f h) as [[a|e|] h']; simpl in *; try done.
  etransitivity; [exact Hf|apply Hk].
Qed.

Lemma keeps_lift {A} (o : outcome A) : keeps R (lift o).
Proof. intros h. simpl. reflexivity. Qed.

Lemma keeps_throw {A} e : keeps R (throw (A := A) e).
Proof. intros h. simpl. reflexivity. Qed.

Lemma keeps_undefined {A} : keeps R (undefined_behaviour (A := A)).
Proof. intros h. simpl. reflexivity. Qed.

Lemma keeps_try_catch {A} (body : M Main.Host A) handler :
  keeps R body → (∀ e, keeps R (handler e)) → keeps R (try_catch body handler).
Proof.
  intros Hbody Hhandler h. unfold try_catch. specialize (Hbody h).
  destruct (body h) as [[a|e|] h']; simpl in *; try done.
  etransitivity; [exact Hbody|apply Hhandler].
Qed.

Lemma keeps_member {A} (f : Main.ElementaryAudioProcessor → A) :
  keeps R (Main.member f).
Proof. intros h. simpl. reflexivity. Qed.

Lemma keeps_call callback args : keeps R (Main.call callback args).
Proof. intros h. simpl. reflexivity. Qed.

Lemma keeps_update f : (∀ p, R p (f p)) → keeps R (Main.update f).
Proof. intros Hf h. simpl. apply Hf. Qed.

Lemma keeps_runtime_call {A} seen (f : M Runtime A) :
  (∀ p rt, R p (Main.set_runtime rt p)) → keeps R (Main.runtime_call seen f).
Proof.
  intros Hrt h. unfold Main.runtime_call.
  destruct (Main.runtime (Main.this h)) as [rt|]; [|reflexivity].
  destruct (f rt) as [r rt']. simpl. apply Hrt.
Qed.

Lemma keeps_for_loop i count (body : nat → M Main.Host unit) :
  (∀ i, keeps R (body i)) → keeps R (Main.for_loop i count body).
Proof.
  intros Hbody. revert i. induction count as [|count IH]; intros i; simpl.
  - apply keeps_ret.
  - apply keeps_bind; [apply Hbody|]. intros _. apply IH.
Qed.

Lemma keeps_if {A} (b : bool) (f g : M Main.Host A) :
  keeps R f → keeps R g → keeps R (if b then f else g).
Proof. by destruct b. Qed.

Lemma keeps_run {A} (f : M Main.Host A) p :
  keeps R f → R p (Main.this (Main.run f p).2).
Proof. intros Hf. apply (Hf {| Main.this := p; Main.events := [] |}). Qed.
End Keeps.

(** One step of the proof that a member function keeps a relation: by the
    shape of its next statement. *)
Ltac keeps_step :=
  lazymatch goal with
  | |- keeps ?R _ =>
      first
        [ apply (keeps_ret R) | apply (keeps_lift R) | apply (keeps_throw R)
        | apply (keeps_undefined R) | apply (keeps_member R) | apply (keeps_call R)
        | apply (keeps_runtime_call R); by intros ? ?
        | apply (keeps_update R); by intros ?
        | apply (keeps_try_catch R); [|intros ?]
        | apply (keeps_for_loop R); intros ?
        | apply (keeps_bind R); [|intros ?]
        | apply (keeps_if R)
        | match goal with |- keeps _ (match ?x with _ => _ end) => destruct x end ]
  end.

Ltac keeps_all := unfold Main.on_runtime; repeat keeps_step.

(** ** Index arithmetic *)

Lemma to_size_t_to_int z : Cpp.to_size_t (Cpp.to_int z) = Cpp.to_size_t z.
Proof.
  unfold Cpp.to_size_t, Cpp.to_int, Cpp.wrap_unsigned, Cpp.wrap_signed.
  rewrite Zminus_mod_idemp_l.
  replace (z + 2 ^ (32 - 1) - 2 ^ (32 - 1)) with z by lia. done.
Qed.

Lemma to_size_t_add_to_int a z :
  Cpp.to_size_t (a + Cpp.to_int z) = Cpp.to_size_t (a + z).
Proof.
  unfold Cpp.to_size_t, Cpp.wrap_unsigned.
  rewrite <- Zplus_mod_idemp_r. fold (Cpp.wrap_unsigned 32 (Cpp.to_int z)).
  fold (Cpp.to_size_t (Cpp.to_int z)). rewrite to_size_t_to_int.
  unfold Cpp.to_size_t, Cpp.wrap_unsigned. by rewrite Zplus_mod_idemp_r.
Qed.

Lemma to_size_t_small z : 0 ≤ z < 2 ^ 32 → Cpp.to_size_t z = z.
Proof. intros Hz. unfold Cpp.to_size_t, Cpp.wrap_unsigned. by apply Z.mod_small. Qed.

Lemma to_int64_add_l a b : Cpp.to_int64 (Cpp.to_int64 a + b) = Cpp.to_int64 (a + b).
Proof.
  unfold Cpp.to_int64, Cpp.wrap_signed. f_equal.
  replace ((a + 2 ^ (64 - 1)) mod 2 ^ 64 - 2 ^ (64 - 1) + b + 2 ^ (64 - 1))
    with ((a + 2 ^ (64 - 1)) mod 2 ^ 64 + b) by lia.
  rewrite Zplus_mod_idemp_l. f_equal. lia.
Qed.

Lemma to_int64_small a : - 2 ^ 63 ≤ a < 2 ^ 63 → Cpp.to_int64 a = a.
Proof.
  intros Ha. unfold Cpp.to_int64, Cpp.wrap_signed.
  rewrite Z.mod_small; simpl; lia.
Qed.

Lemma to_int64_range a : - 2 ^ 63 ≤ Cpp.to_int64 a < 2 ^ 63.
Proof.
  unfold Cpp.to_int64, Cpp.wrap_signed.
  pose proof (Z.mod_pos_bound (a + 2 ^ (64 - 1)) (2 ^ 64)). simpl in *. lia.
Qed.

Lemma foldl_snoc_map {A B} (f : A → B) (l : list A) (acc : list B) :
  foldl (λ acc x, acc ++ [f x]) acc l = acc ++ map f l.
Proof.
  revert acc. induction l as [|x l IH]; intros acc; simpl.
  - by rewrite app_nil_r.
  - by rewrite IH, <- app_assoc.
Qed.

Section MoreProcessorFacts.
Context `{RuntimeEntryPoints, HandoffBound}.
Implicit Types (p : Main.ElementaryAudioProcessor) (h : Main.Host).

(** ** The views of the work buffers *)

Lemma prepared_buffer p sampleRate maxBlockSize (i : nat) :
  Main.scratchBuffers (prepared sampleRate maxBlockSize p) !! i
  = if bool_decide (i < scratch_count p)%nat
    then Some (replicate (Z.to_nat (Cpp.to_unsigned maxBlockSize)) Cpp.float_zero)
    else None.
Proof.
  simpl. case_bool_decide.
  - by apply lookup_replicate_2.
  - apply lookup_ge_None. rewrite length_replicate. lia.
Qed.

Lemma getInputBufferData_at p sampleRate maxBlockSize index :
  let at_ := Z.to_nat (Cpp.to_size_t index) in
  Main.run (Main.getInputBufferData index) (prepared sampleRate maxBlockSize p)
  = (if bool_decide (at_ < scratch_count p)%nat
     then Returns {| Main.data := at_;
                     Main.size := Z.to_nat (Cpp.to_unsigned maxBlockSize) |}
     else Undefined,
     {| Main.this := prepared sampleRate maxBlockSize p; Main.events := [] |}).
Proof.
  intros at_. unfold Main.run, Main.getInputBufferData, Main.member.
  run_member. cbn [Main.this]. rewrite to_size_t_to_int. fold at_.
  rewrite prepared_buffer. case_bool_decide; [|done].
  run_member. by rewrite length_replicate.
Qed.

Lemma getOutputBufferData_at p sampleRate maxBlockSize index :
  let at_ := Z.to_nat (Cpp.to_size_t (Main.numInputChannels p + index)) in
  Main.run (Main.getOutputBufferData index) (prepared sampleRate maxBlockSize p)
  = (if bool_decide (at_ < scratch_count p)%nat
     then Returns {| Main.data := at_;
                     Main.size := Z.to_nat (Cpp.to_unsigned maxBlockSize) |}
     else Undefined,
     {| Main.this := prepared sampleRate maxBlockSize p; Main.events := [] |}).
Proof.
  intros at_. unfold Main.run, Main.getOutputBufferData, Main.member.
  run_member. cbn [Main.this].
  change (Main.numInputChannels (prepared sampleRate maxBlockSize p))
    with (Main.numInputChannels p).
  rewrite to_size_t_add_to_int. fold at_.
  rewrite prepared_buffer. case_bool_decide; [|done].
  run_member. by rewrite length_replicate.
Qed.

(** X9. The index of a buffer view is never checked: on a prepared
    processor [getInputBufferData(index)] is undefined exactly when the
    index, taken as a [size_t], is not below the number of work buffers (so
    for every negative index on a processor with fewer than 2^31 channels),
    and it leaves the processor as it is. *)
Theorem getInputBufferData_unchecked p sampleRate maxBlockSize index :
  let r := Main.run (Main.getInputBufferData index)
             (prepared sampleRate maxBlockSize p) in
  (r.1 = Undefined ↔ (scratch_count p ≤ Z.to_nat (Cpp.to_size_t index))%nat) ∧
  Main.this r.2 = prepared sampleRate maxBlockSize p.
Proof.
  intros r. unfold r. rewrite getInputBufferData_at. cbn [fst snd Main.this].
  split; [|done]. case_bool_decide; split; intros; try done; lia.
Qed.

(** X10. An output view is the input view at [numInputChannels + index]:
    the two member functions index the same vector of work buffers, on
    every processor and for every index, in range or not; an output index
    below zero reaches the buffer of an input channel. *)
Theorem getOutputBufferData_offsets p index :
  Main.run (Main.getOutputBufferData index) p
  = Main.run (Main.getInputBufferData (Main.numInputChannels p + index)) p.
Proof.
  unfold Main.run, Main.getOutputBufferData, Main.getInputBufferData, Main.member.
  run_member. cbn [Main.this].
  by rewrite to_size_t_add_to_int, to_size_t_to_int.
Qed.

(** X11. The views are the buffers that a block works on: on a processor
    prepared with channel counts whose sum is below 2^31, the input view
    [i] is onto the buffer behind the [i]-th input pointer that [process]
    hands to the runtime, the output view [j] onto the buffer behind the
    [j]-th output pointer, each view [maxBlockSize] floats long; input
    views are onto buffers below [numInputChannels], output views onto
    buffers from there on, so no output view shares a buffer with an input
    view. *)
Theorem views_are_the_block_buffers p sampleRate maxBlockSize :
  0 ≤ Main.numInputChannels p → 0 ≤ Main.numOutputChannels p →
  Main.numInputChannels p + Main.numOutputChannels p < 2 ^ 31 →
  let q := prepared sampleRate maxBlockSize p in
  let inputs := Main.scratchPointers q in
  let outputs := drop (Z.to_nat (Main.numInputChannels q)) (Main.scratchPointers q) in
  (∀ i, 0 ≤ i < Main.numInputChannels p →
     ∃ view,
       (Main.run (Main.getInputBufferData i) q).1 = Returns view ∧
       inputs !! Z.to_nat i = Some (Main.data view) ∧
       (Main.data view < Z.to_nat (Main.numInputChannels p))%nat ∧
       Main.size view = Z.to_nat (Cpp.to_unsigned maxBlockSize)) ∧
  (∀ j, 0 ≤ j < Main.numOutputChannels p →
     ∃ view,
       (Main.run (Main.getOutputBufferData j) q).1 = Returns view ∧
       outputs !! Z.to_nat j = Some (Main.data view) ∧
       (Z.to_nat (Main.numInputChannels p) ≤ Main.data view)%nat ∧
       Main.size view = Z.to_nat (Cpp.to_unsigned maxBlockSize)).
Proof.
  intros HnI HnO Hsum q inputs outputs.
  assert (scratch_count p
          = Z.to_nat (Main.numInputChannels p + Main.numOutputChannels p)) as Hcount.
  { unfold scratch_count. by rewrite to_size_t_small by lia. }
  split.
  - intros i Hi. unfold q. rewrite getInputBufferData_at.
    rewrite to_size_t_small by lia.
    rewrite bool_decide_true by lia. eexists. split; [reflexivity|].
    cbn [Main.data Main.size]. split; [|split; [lia|done]].
    unfold inputs, q. cbn [prepared Main.scratchPointers].
    rewrite lookup_seq_lt by lia. done.
  - intros j Hj. unfold q. rewrite getOutputBufferData_at.
    rewrite to_size_t_small by lia.
    rewrite bool_decide_true by lia. eexists. split; [reflexivity|].
    cbn [Main.data Main.size]. split; [|split; [lia|done]].
    unfold outputs, q. cbn [prepared Main.scratchPointers Main.numInputChannels].
    rewrite lookup_drop, lookup_seq_lt by lia. f_equal. lia.
Qed.

(** ** Blocks *)

Lemma process_step numSamples h rt :
  Main.runtime (Main.this h) = Some rt →
  Main.process numSamples h
  = let p := Main.this h in
    let k := Cpp.to_int numSamples in
    match Runtime_process (Main.scratchBuffers p) (Main.scratchPointers p)
            (Main.numInputChannels p)
            (drop (Z.to_nat (Main.numInputChannels p)) (Main.scratchPointers p))
            (Main.numOutputChannels p) k (Main.sampleTime p) rt with
    | (Returns r, rt') =>
        (Returns tt,
         {| Main.this :=
              {| Main.runtime := Some rt';
                 Main.scratchBuffers := r.1;
                 Main.scratchPointers := Main.scratchPointers p;
                 Main.sampleTime := Cpp.to_int64 (r.2 + k);
                 Main.numInputChannels := Main.numInputChannels p;
                 Main.numOutputChannels := Main.numOutputChannels p |};
            Main.events := Main.events h ++ [Main.process_called k (Main.sampleTime p)] |})
    | (Throws e, rt') =>
        (Throws e,
         {| Main.this := Main.set_runtime (Some rt') p;
            Main.events := Main.events h ++ [Main.process_called k (Main.sampleTime p)] |})
    | (Undefined, rt') =>
        (Undefined,
         {| Main.this := Main.set_runtime (Some rt') p;
            Main.events := Main.events h ++ [Main.process_called k (Main.sampleTime p)] |})
    end.
Proof.
  intros Hrt. unfold Main.process, Main.member. run_member.
  unfold Main.runtime_call. rewrite Hrt.
  destruct (Runtime_process _ _ _ _ _ _ _ rt) as [[[bufs t]|e|] rt']; done.
Qed.

Lemma process_all_steps lengths h rt :
  (∀ scratch ins numIns outs numOuts numSamples userData rt,
     ∃ scratch' rt',
       Runtime_process scratch ins numIns outs numOuts numSamples userData rt
       = (Returns (scratch', userData), rt')) →
  Main.runtime (Main.this h) = Some rt →
  - 2 ^ 63 ≤ Main.sampleTime (Main.this h) < 2 ^ 63 →
  ∃ h',
    process_all lengths h = (Returns tt, h') ∧
    Main.events h'
    = Main.events h ++ block_starts (Main.sampleTime (Main.this h)) lengths ∧
    Main.sampleTime (Main.this h')
    = Cpp.to_int64 (Main.sampleTime (Main.this h)
                    + foldr (λ k sum, Cpp.to_int k + sum) 0 lengths).
Proof.
  intros Hruntime. revert h rt.
  induction lengths as [|k lengths IH]; intros h rt Hrt Hrange; simpl.
  - exists h. rewrite app_nil_r, Z.add_0_r, to_int64_small by done. done.
  - run_member. rewrite (process_step k h rt Hrt). cbv zeta.
    destruct (Hruntime (Main.scratchBuffers (Main.this h))
                (Main.scratchPointers (Main.this h))
                (Main.numInputChannels (Main.this h))
                (drop (Z.to_nat (Main.numInputChannels (Main.this h)))
                   (Main.scratchPointers (Main.this h)))
                (Main.numOutputChannels (Main.this h)) (Cpp.to_int k)
                (Main.sampleTime (Main.this h)) rt) as (scratch' & rt' & ->).
    cbn [fst snd].
    match goal with |- context [process_all lengths ?h1] => set (next := h1) end.
    destruct (IH next rt' eq_refl (to_int64_range _)) as (h' & -> & Hevents & Htime).
    exists h'. split; [done|].
    split; [by rewrite Hevents; cbn [next Main.events Main.this Main.sampleTime];
              rewrite <- app_assoc|].
    rewrite Htime. cbn [next Main.this Main.sampleTime].
    rewrite to_int64_add_l. f_equal. lia.
Qed.

(** X12. The sample time is the sum of the block lengths: with a runtime
    that renders every block and leaves the counter behind [userData]
    alone, any sequence of [process] calls returns, each call hands the
    runtime the sample time that the calls before it have accumulated, and
    the counter ends as the [int64_t] sum of its start and of all block
    lengths (each taken as an [int]). *)
Theorem process_accumulates lengths p rt :
  (∀ scratch ins numIns outs numOuts numSamples userData rt,
     ∃ scratch' rt',
       Runtime_process scratch ins numIns outs numOuts numSamples userData rt
       = (Returns (scratch', userData), rt')) →
  Main.runtime p = Some rt →
  - 2 ^ 63 ≤ Main.sampleTime p < 2 ^ 63 →
  let r := Main.run (process_all lengths) p in
  r.1 = Returns tt ∧
  Main.events r.2 = block_starts (Main.sampleTime p) lengths ∧
  Main.sampleTime (Main.this r.2)
  = Cpp.to_int64 (Main.sampleTime p + foldr (λ k sum, Cpp.to_int k + sum) 0 lengths).
Proof.
  intros Hruntime Hrt Hrange r. unfold r, Main.run.
  destruct (process_all_steps lengths {| Main.this := p; Main.events := [] |} rt
              Hruntime Hrt Hrange) as (h' & -> & Hevents & Htime).
  done.
Qed.

(** ** Messages and resources *)

(** X13. A batch that the runtime applies is passed on once and silently:
    for an array payload on a prepared processor whose runtime returns from
    [applyInstructions], [postMessageBatch] returns with the runtime called
    once with the converted batch and the error callback never called. *)
Theorem postMessageBatch_accepts p payload errorCallback batch rt rt' :
  emValToValue payload = Returns (js.Array batch) →
  Main.runtime p = Some rt →
  applyInstructions batch rt = (Returns tt, rt') →
  Main.run (Main.postMessageBatch payload errorCallback) p
  = (Returns tt,
     {| Main.this := Main.set_runtime (Some rt') p;
        Main.events := [Main.applyInstructions_called batch] |}).
Proof.
  intros Hv Hrt Happly.
  rewrite (postMessageBatch_applied _ _ _ batch rt) by done. by rewrite Happly.
Qed.

(** X14. [arrayToFloatVector] narrows an Array of Numbers element by
    element, in order; an element that is no Number ends the conversion
    with the invariant violation "Failed to convert Array to float vector;
    invalid array child!" in the place of the bad variant access. The
    processor is left as it is either way. *)
Theorem arrayToFloatVector_converts ar h :
  Main.arrayToFloatVector ar h
  = (match buffer_floats (js.Array ar) with
     | Some floats => Returns floats
     | None =>
         Throws (InvariantViolation
                   "Failed to convert Array to float vector; invalid array child!")
     end, h).
Proof.
  unfold Main.arrayToFloatVector. run_member. rewrite mapM_to_float.
  by destruct (buffer_floats (js.Array ar)).
Qed.

(** X15. [prepare] starts afresh: what it leaves depends only on its two
    arguments, the two channel counts and the sample-time counter, and on
    nothing else of the processor it finds: the old runtime with its
    resources and registry and the old work buffers are dropped. *)
Theorem prepare_starts_afresh p p' sampleRate maxBlockSize :
  Main.sampleTime p' = Main.sampleTime p →
  Main.numInputChannels p' = Main.numInputChannels p →
  Main.numOutputChannels p' = Main.numOutputChannels p →
  Main.run (Main.prepare sampleRate maxBlockSize) p'
  = Main.run (Main.prepare sampleRate maxBlockSize) p.
Proof.
  intros Ht HnI HnO. rewrite !prepare_run. unfold prepared, scratch_count.
  by rewrite Ht, HnI, HnO.
Qed.

(** X16. A resource put through the processor is found by a convolution
    node of its runtime: after [prepare] and an [updateSharedResourceMap]
    call with a string path and a float buffer, the node that the
    "convolve" factory of that runtime makes accepts [setProperty("path",
    path)] against the runtime's Shared Resource Map, and, its queue being
    new and of a bound above zero, ends with the convolver built from
    exactly the floats that were put as the one item of its queue. *)
Theorem resource_reaches_node p sampleRate maxBlockSize path buffer errorCallback
    name bv floats id :
  emValToValue path = Returns (js.String name) →
  emValToValue buffer = Returns bv →
  buffer_floats bv = Some floats →
  (0 < default_capacity)%nat →
  let q := Main.this (Main.run (Main.prepare sampleRate maxBlockSize) p).2 in
  let q' := Main.this
              (Main.run (Main.updateSharedResourceMap path buffer errorCallback) q).2 in
  ∃ rt n n',
    Main.runtime q' = Some rt ∧
    createNode "convolve" id rt = Node (ConvolutionNode_ n) ∧
    setProperty "path" (js.String name) (sharedResourceMap rt) n = (Returns tt, n') ∧
    Queue.items (convolverQueue n') = [Some (built_from floats)].
Proof.
  intros Hp Hb Hfloats Hbound q q'. unfold q', q.
  rewrite prepare_run. cbn [snd Main.this].
  erewrite updateSharedResourceMap_put by (try done; reflexivity).
  eexists _, _, _. split; [reflexivity|]. split.
  - unfold createNode. cbn [nodeFactory with_resource].
    rewrite extended_lookup. rewrite bool_decide_true by done. reflexivity.
  - split.
    + apply setProperty_present. cbn [sharedResourceMap with_resource].
      apply lookup_insert_eq.
    + simpl. unfold Queue.push, Queue.size. simpl.
      by rewrite bool_decide_true by done.
Qed.

End MoreProcessorFacts.

Section EventFacts.
Context `{RuntimeEntryPoints, HandoffBound, !RuntimeEvents, !Embind}.
Implicit Types (p : Main.ElementaryAudioProcessor) (h : Main.Host).

(** ** Events *)

(** X17. [processQueuedEvents] hands the host one batch: when the runtime
    returns its queued events, the callback is called exactly once, with
    one array that holds, in the order of the events, one two-element array
    per event: the string that the binding makes of the event's type, and
    what [valueToEmVal] builds from its payload. With no event queued the
    callback still gets the empty array. *)
Theorem processQueuedEvents_delivers p callback rt queued rt' :
  Main.runtime p = Some rt →
  Runtime_processQueuedEvents rt = (Returns queued, rt') →
  Main.run (Main.processQueuedEvents callback) p
  = (Returns tt,
     {| Main.this := Main.set_runtime (Some rt') p;
        Main.events :=
          [Main.Called callback
             [emscripten.array
                (map (λ e, emscripten.array
                             [emscripten.text (UTF8ToString e.1);
                              valueToEmVal e.2]) queued)]] |}).
Proof.
  intros Hrt Hqueued. unfold Main.run, Main.processQueuedEvents.
  unfold Main.on_runtime, Main.runtime_call. run_member. simpl.
  rewrite Hrt, Hqueued. unfold Main.call, Main.record. run_member. simpl.
  rewrite (foldl_snoc_map (λ e, js.Array [js.String e.1; e.2])). simpl.
  rewrite map_map. done.
Qed.

(** X18. An exception of the runtime's event queue is not caught: it
    leaves [processQueuedEvents] as it is, and the callback is not
    called. *)
Theorem processQueuedEvents_propagates p callback rt e rt' :
  Main.runtime p = Some rt →
  Runtime_processQueuedEvents rt = (Throws e, rt') →
  Main.run (Main.processQueuedEvents callback) p
  = (Throws e,
     {| Main.this := Main.set_runtime (Some rt') p; Main.events := [] |}).
Proof.
  intros Hrt Hqueued. unfold Main.run, Main.processQueuedEvents.
  unfold Main.on_runtime, Main.runtime_call. run_member. simpl.
  rewrite Hrt, Hqueued. simpl. done.
Qed.

(** X19. Before [prepare] the processor has no runtime: [process], [reset]
    and [processQueuedEvents], and [postMessageBatch] and
    [updateSharedResourceMap] with arguments that pass their validation,
    dereference the null runtime pointer, which is undefined. *)
Theorem unprepared_is_undefined p :
  Main.runtime p = None →
  (∀ numSamples, (Main.run (Main.process numSamples) p).1 = Undefined) ∧
  (Main.run Main.reset p).1 = Undefined ∧
  (∀ callback, (Main.run (Main.processQueuedEvents callback) p).1 = Undefined) ∧
  (∀ payload errorCallback batch,
     emValToValue payload = Returns (js.Array batch) →
     (Main.run (Main.postMessageBatch payload errorCallback) p).1 = Undefined) ∧
  (∀ path buffer errorCallback name bv floats,
     emValToValue path = Returns (js.String name) →
     emValToValue buffer = Returns bv →
     buffer_floats bv = Some floats →
     (Main.run (Main.updateSharedResourceMap path buffer errorCallback) p).1
     = Undefined).
Proof.
  intros Hrt. repeat split.
  - intros numSamples. unfold Main.run, Main.process, Main.member, Main.runtime_call.
    run_member. simpl. by rewrite Hrt.
  - unfold Main.run, Main.reset, Main.on_runtime, Main.runtime_call. simpl.
    by rewrite Hrt.
  - intros callback.
    unfold Main.run, Main.processQueuedEvents, Main.on_runtime, Main.runtime_call.
    run_member. simpl. by rewrite Hrt.
  - intros payload errorCallback batch Hv.
    by rewrite (postMessageBatch_unprepared _ _ _ batch).
  - intros path buffer errorCallback name bv floats Hp Hb Hfloats.
    unfold Main.run, Main.updateSharedResourceMap. rewrite Hp, Hb. run_member.
    destruct bv as [| | | | |ar| |xs]; try discriminate Hfloats.
    + run_member. unfold Main.arrayToFloatVector.
      rewrite mapM_to_float, Hfloats. run_member.
      unfold Main.on_runtime, Main.runtime_call. simpl. by rewrite Hrt.
    + run_member. unfold Main.on_runtime, Main.runtime_call. simpl. by rewrite Hrt.
Qed.
(** X20. No member function changes the channel counts: after any of the
    eight entry points, with any arguments and however the call ends, the
    processor has the numbers of input and output channels it was
    constructed with. *)
Theorem channel_counts_are_fixed p :
  let after {A} (f : M Main.Host A) := Main.this (Main.run f p).2 in
  (∀ sampleRate maxBlockSize,
     same_channels p (after (Main.prepare sampleRate maxBlockSize))) ∧
  (∀ index, same_channels p (after (Main.getInputBufferData index))) ∧
  (∀ index, same_channels p (after (Main.getOutputBufferData index))) ∧
  (∀ payload errorCallback,
     same_channels p (after (Main.postMessageBatch payload errorCallback))) ∧
  same_channels p (after Main.reset) ∧
  (∀ path buffer errorCallback,
     same_channels p (after (Main.updateSharedResourceMap path buffer errorCallback))) ∧
  (∀ numSamples, same_channels p (after (Main.process numSamples))) ∧
  (∀ callback, same_channels p (after (Main.processQueuedEvents callback))).
Proof.
  intros after. unfold after.
  repeat match goal with |- _ ∧ _ => split end; intros; apply (keeps_run same_channels).
  all: unfold Main.prepare, Main.getInputBufferData, Main.getOutputBufferData,
    Main.postMessageBatch, Main.reset, Main.updateSharedResourceMap,
    Main.arrayToFloatVector, Main.process, Main.processQueuedEvents; keeps_all.
Qed.

(** X21. Only [process] moves the sample time: the seven other entry
    points leave the counter as it is, with any arguments and however the
    call ends. *)
Theorem sample_time_moves_in_process_only p :
  let after {A} (f : M Main.Host A) := Main.this (Main.run f p).2 in
  (∀ sampleRate maxBlockSize,
     same_clock p (after (Main.prepare sampleRate maxBlockSize))) ∧
  (∀ index, same_clock p (after (Main.getInputBufferData index))) ∧
  (∀ index, same_clock p (after (Main.getOutputBufferData index))) ∧
  (∀ payload errorCallback,
     same_clock p (after (Main.postMessageBatch payload errorCallback))) ∧
  same_clock p (after Main.reset) ∧
  (∀ path buffer errorCallback,
     same_clock p (after (Main.updateSharedResourceMap path buffer errorCallback))) ∧
  (∀ callback, same_clock p (after (Main.processQueuedEvents callback))).
Proof.
  intros after. unfold after.
  repeat match goal with |- _ ∧ _ => split end; intros;
    apply (keeps_run same_clock).
  all: unfold Main.prepare, Main.getInputBufferData, Main.getOutputBufferData,
    Main.postMessageBatch, Main.reset, Main.updateSharedResourceMap,
    Main.arrayToFloatVector, Main.processQueuedEvents; keeps_all.
Qed.

(** X22. Only [prepare] and [process] touch the work buffers: the views,
    the message batch, [reset], the resource update and the events leave
    the buffers and the pointers into them as they are, so that a view the
    host holds stays a view of the same buffer. *)
Theorem buffers_change_in_prepare_and_process_only p :
  let after {A} (f : M Main.Host A) := Main.this (Main.run f p).2 in
  (∀ index, same_buffers p (after (Main.getInputBufferData index))) ∧
  (∀ index, same_buffers p (after (Main.getOutputBufferData index))) ∧
  (∀ payload errorCallback,
     same_buffers p (after (Main.postMessageBatch payload errorCallback))) ∧
  same_buffers p (after Main.reset) ∧
  (∀ path buffer errorCallback,
     same_buffers p (after (Main.updateSharedResourceMap path buffer errorCallback))) ∧
  (∀ callback, same_buffers p (after (Main.processQueuedEvents callback))).
Proof.
  intros after. unfold after.
  repeat match goal with |- _ ∧ _ => split end; intros;
    apply (keeps_run same_buffers).
  all: unfold Main.getInputBufferData, Main.getOutputBufferData,
    Main.postMessageBatch, Main.reset, Main.updateSharedResourceMap,
    Main.arrayToFloatVector, Main.processQueuedEvents; keeps_all.
Qed.

End EventFacts.

(** ** The further properties on the reference runtimes *)

Section MoreOnBareRuntime.
#[local] Existing Instance Reference.direct_form.
#[local] Existing Instance Reference.bound.
#[local] Existing Instance Reference.bare.
#[local] Existing Instance Reference.refusing.

(** X11, witness: the second output view of a processor with one input
    and two outputs. *)
Lemma views_are_the_block_buffers_witness :
  let p := Main.new 1 2 in
  let q := prepared Reference.fs 128 p in
  0 ≤ Main.numInputChannels p ∧ 0 ≤ Main.numOutputChannels p ∧
  Main.numInputChannels p + Main.numOutputChannels p < 2 ^ 31 ∧
  0 ≤ 1 < Main.numOutputChannels p ∧
  ∃ view,
    (Main.run (Main.getOutputBufferData 1) q).1 = Returns view ∧
    drop (Z.to_nat (Main.numInputChannels q)) (Main.scratchPointers q)
      !! Z.to_nat 1 = Some (Main.data view) ∧
    (Z.to_nat (Main.numInputChannels p) ≤ Main.data view)%nat ∧
    Main.size view = Z.to_nat (Cpp.to_unsigned 128).
Proof.
  cbv zeta.
  assert (0 ≤ Main.numInputChannels (Main.new 1 2)) as HnI by (vm_compute; discriminate).
  assert (0 ≤ Main.numOutputChannels (Main.new 1 2)) as HnO
    by (vm_compute; discriminate).
  assert (Main.numInputChannels (Main.new 1 2) + Main.numOutputChannels (Main.new 1 2)
          < 2 ^ 31) as Hsum by (vm_compute; reflexivity).
  assert (0 ≤ 1 < Main.numOutputChannels (Main.new 1 2)) as Hj
    by (vm_compute; split; [discriminate | reflexivity]).
  do 4 (split; [assumption|]).
  exact (proj2 (views_are_the_block_buffers (Main.new 1 2) Reference.fs 128
                  HnI HnO Hsum) 1 Hj).
Defined.

(** X12, witness: three blocks of 128, 128 and 64 samples after
    [prepare]. *)
Lemma process_accumulates_witness :
  let p := prepared Reference.fs 128 (Main.new 0 2) in
  (∀ scratch ins numIns outs numOuts numSamples userData rt,
     ∃ scratch' rt',
       Runtime_process scratch ins numIns outs numOuts numSamples userData rt
       = (Returns (scratch', userData), rt')) ∧
  is_Some (Main.runtime p) ∧
  - 2 ^ 63 ≤ Main.sampleTime p < 2 ^ 63 ∧
  Main.events (Main.run (process_all [128; 128; 64]) p).2
  = [Main.process_called 128 0; Main.process_called 128 128;
     Main.process_called 64 256] ∧
  Main.sampleTime (Main.this (Main.run (process_all [128; 128; 64]) p).2) = 320.
Proof.
  cbv zeta.
  assert (∀ scratch ins numIns outs numOuts numSamples userData rt,
            ∃ scratch' rt',
              Runtime_process scratch ins numIns outs numOuts numSamples userData rt
              = (Returns (scratch', userData), rt')) as Hruntime
    by (intros; eexists _, _; reflexivity).
  assert (- 2 ^ 63 ≤ Main.sampleTime (prepared Reference.fs 128 (Main.new 0 2))
          < 2 ^ 63) as Hrange by (vm_compute; split; [discriminate | reflexivity]).
  split; [exact Hruntime|]. split; [by eexists|]. split; [exact Hrange|].
  destruct (process_accumulates [128; 128; 64]
              (prepared Reference.fs 128 (Main.new 0 2)) _ Hruntime eq_refl Hrange)
    as (_ & -> & ->).
  split; reflexivity.
Defined.

(** X13, witness: the empty batch. *)
Lemma postMessageBatch_accepts_witness :
  let p := prepared Reference.fs 128 (Main.new 0 2) in
  emValToValue (emscripten.array []) = Returns (js.Array []) ∧
  is_Some (Main.runtime p) ∧
  Main.run (Main.postMessageBatch (emscripten.array []) emscripten.func) p
  = (Returns tt,
     {| Main.this := p; Main.events := [Main.applyInstructions_called []] |}).
Proof.
  cbv zeta. split; [reflexivity|]. split; [by eexists|].
  exact (postMessageBatch_accepts (prepared Reference.fs 128 (Main.new 0 2))
           (emscripten.array []) emscripten.func [] _ _ eq_refl eq_refl eq_refl).
Defined.

(** X15, witness: a processor that has a resource and has rendered a
    block is prepared as a new one with the same counter would be. *)
Lemma prepare_starts_afresh_witness :
  let p := Main.set_sampleTime 128 (Main.new 0 2) in
  let p1 := prepared Reference.fs 128 (Main.new 0 2) in
  let p2 := Main.this
              (Main.run (Main.updateSharedResourceMap (emscripten.text "/ir/hall.wav")
                           (emscripten.float32array [Reference.one])
                           emscripten.func) p1).2 in
  let p' := Main.this (Main.run (Main.process 128) p2).2 in
  Main.sampleTime p' = Main.sampleTime p ∧
  Main.numInputChannels p' = Main.numInputChannels p ∧
  Main.numOutputChannels p' = Main.numOutputChannels p ∧
  p' ≠ p ∧
  Main.run (Main.prepare Reference.fs 64) p'
  = Main.run (Main.prepare Reference.fs 64) p.
Proof.
  cbv zeta.
  set (p := Main.set_sampleTime 128 (Main.new 0 2)).
  set (p' := Main.this (Main.run (Main.process 128) _).2).
  assert (Main.sampleTime p' = Main.sampleTime p) as Ht by (vm_compute; reflexivity).
  assert (Main.numInputChannels p' = Main.numInputChannels p) as HnI
    by (vm_compute; reflexivity).
  assert (Main.numOutputChannels p' = Main.numOutputChannels p) as HnO
    by (vm_compute; reflexivity).
  do 3 (split; [assumption|]).
  split; [intros Hp; apply (f_equal Main.runtime) in Hp; discriminate Hp|].
  exact (prepare_starts_afresh p p' Reference.fs 64 Ht HnI HnO).
Defined.

(** X16, witness: an array of two numbers put at "/ir/hall.wav" and a
    node with the id 7, with the bound 32. *)
Lemma resource_reaches_node_witness :
  let path := emscripten.text "/ir/hall.wav" in
  let buffer := emscripten.array [emscripten.number Reference.one;
                                  emscripten.number Reference.half] in
  emValToValue path = Returns (js.String "/ir/hall.wav") ∧
  emValToValue buffer
  = Returns (js.Array [js.Number Reference.one; js.Number Reference.half]) ∧
  buffer_floats (js.Array [js.Number Reference.one; js.Number Reference.half])
  = Some [Reference.one; Reference.half] ∧
  (0 < default_capacity)%nat ∧
  let q := Main.this (Main.run (Main.prepare Reference.fs 128) (Main.new 0 2)).2 in
  let q' := Main.this
              (Main.run (Main.updateSharedResourceMap path buffer emscripten.func)
                 q).2 in
  ∃ rt n n',
    Main.runtime q' = Some rt ∧
    createNode "convolve" 7 rt = Node (ConvolutionNode_ n) ∧
    setProperty "path" (js.String "/ir/hall.wav") (sharedResourceMap rt) n
    = (Returns tt, n') ∧
    Queue.items (convolverQueue n')
    = [Some (built_from [Reference.one; Reference.half])].
Proof.
  cbv zeta.
  assert (buffer_floats (js.Array [js.Number Reference.one; js.Number Reference.half])
          = Some [Reference.one; Reference.half]) as Hfloats
    by (vm_compute; reflexivity).
  assert (0 < default_capacity)%nat as Hbound by (vm_compute; lia).
  split; [reflexivity|]. split; [reflexivity|]. split; [exact Hfloats|].
  split; [exact Hbound|].
  exact (resource_reaches_node (Main.new 0 2) Reference.fs 128
           (emscripten.text "/ir/hall.wav")
           (emscripten.array [emscripten.number Reference.one;
                              emscripten.number Reference.half])
           emscripten.func "/ir/hall.wav" _ _ 7 eq_refl eq_refl Hfloats Hbound).
Defined.

End MoreOnBareRuntime.

Section OnEmittingRuntime.
#[local] Existing Instance Reference.direct_form.
#[local] Existing Instance Reference.bound.
#[local] Existing Instance Reference.bare.
#[local] Existing Instance Reference.refusing.
#[local] Existing Instance Reference.emitting.
#[local] Existing Instance Reference.embind.

(** X17, witness: the two events of the reference runtime. *)
Lemma processQueuedEvents_delivers_witness :
  let p := prepared Reference.fs 128 (Main.new 0 2) in
  is_Some (Main.runtime p) ∧
  Main.run (Main.processQueuedEvents emscripten.func) p
  = (Returns tt,
     {| Main.this := p;
        Main.events :=
          [Main.Called emscripten.func
             [emscripten.array
                [emscripten.array
                   [emscripten.text "meter";
                    emscripten.object [("max", emscripten.number Reference.one)]];
                 emscripten.array
                   [emscripten.text "scope";
                    emscripten.float32array [Reference.one; Reference.half]]]]] |}).
Proof.
  cbv zeta. split; [by eexists|].
  pose (rt := {| rt_sampleRate := Reference.fs;
                 rt_blockSize := Cpp.to_int (Cpp.to_unsigned 128);
                 nodeFactory := extended coreNodeTypes;
                 sharedResourceMap := ∅;
                 graph := new_graph |} : Runtime).
  assert (Runtime_processQueuedEvents rt
          = (Returns [("meter", js.Object {[ "max" := js.Number Reference.one ]});
                      ("scope", js.Float32Array [Reference.one; Reference.half])],
             rt)) as Hqueued by reflexivity.
  exact (processQueuedEvents_delivers (prepared Reference.fs 128 (Main.new 0 2))
           emscripten.func rt _ rt eq_refl Hqueued).
Defined.

(** X19, witness: a processor that was constructed and not prepared. *)
Lemma unprepared_is_undefined_witness :
  let p := Main.new 0 2 in
  Main.runtime p = None ∧
  (Main.run (Main.process 128) p).1 = Undefined ∧
  (Main.run Main.reset p).1 = Undefined ∧
  (Main.run (Main.processQueuedEvents emscripten.func) p).1 = Undefined ∧
  (Main.run (Main.postMessageBatch (emscripten.array []) emscripten.func) p).1
  = Undefined ∧
  (Main.run (Main.updateSharedResourceMap (emscripten.text "/ir/hall.wav")
               (emscripten.float32array [Reference.one]) emscripten.func) p).1
  = Undefined.
Proof.
  cbv zeta. split; [reflexivity|].
  destruct (unprepared_is_undefined (Main.new 0 2) eq_refl)
    as (Hprocess & Hreset & Hevents & Hbatch & Hresource).
  split; [exact (Hprocess 128)|]. split; [exact Hreset|].
  split; [exact (Hevents emscripten.func)|].
  split; [exact (Hbatch (emscripten.array []) emscripten.func [] eq_refl)|].
  exact (Hresource (emscripten.text "/ir/hall.wav")
           (emscripten.float32array [Reference.one]) emscripten.func
           "/ir/hall.wav" (js.Float32Array [Reference.one]) [Reference.one]
           eq_refl eq_refl eq_refl).
Defined.

End OnEmittingRuntime.

Section OnFailingRuntime.
#[local] Existing Instance Reference.direct_form.
#[local] Existing Instance Reference.bound.
#[local] Existing Instance Reference.bare.
#[local] Existing Instance Reference.refusing.
#[local] Existing Instance Reference.failing.
#[local] Existing Instance Reference.embind.

(** X18, witness: the runtime whose event queue fails. *)
Lemma processQueuedEvents_propagates_witness :
  let p := prepared Reference.fs 128 (Main.new 0 2) in
  is_Some (Main.runtime p) ∧
  Main.run (Main.processQueuedEvents emscripten.func) p
  = (Throws (InvariantViolation "event queue"),
     {| Main.this := p; Main.events := [] |}).
Proof.
  cbv zeta. split; [by eexists|].
  pose (rt := {| rt_sampleRate := Reference.fs;
                 rt_blockSize := Cpp.to_int (Cpp.to_unsigned 128);
                 nodeFactory := extended coreNodeTypes;
                 sharedResourceMap := ∅;
                 graph := new_graph |} : Runtime).
  assert (Runtime_processQueuedEvents rt
          = (Throws (InvariantViolation "event queue"), rt)) as Hqueued
    by reflexivity.
  exact (processQueuedEvents_propagates (prepared Reference.fs 128 (Main.new 0 2))
           emscripten.func rt _ rt eq_refl Hqueued).
Defined.

End OnFailingRuntime.
